(** * A shallow embedding of [tangent_agent.py]

    The module tracks a dictionary of named goals whose priority score decays
    with wall-clock time and is reinforced when the goal's name occurs in a
    stimulus text.

    Modelling choices:
    - Scores, coefficients and times are read as real numbers ([R]) with
      exact arithmetic, the reading under which the decay and scoring laws
      are stated. Python runs them on IEEE-754 doubles, and three effects of
      that are outside the real reading: sums and products are rounded (a
      large score absorbs a small increase, and a product depends on the
      order of its factors in the last bit); [math.exp] underflows to 0.0
      for very negative arguments; and [math.exp] raises [OverflowError] for
      arguments above about 709.78, which [decay] can only reach when the
      clock shows an instant earlier than the goal's last update. Statements
      that depend on one of these are made on doubles ([Binary64]) or under
      the hypothesis that the clock does not run backwards.
    - [time.time()] is an oracle: the world carries the sequence of readings
      the clock will give and a counter of the readings consumed so far.
    - Methods that mutate [self] return the updated object; methods live in a
      small state-and-exception monad, the exception being the [KeyError] of
      a dictionary subscript.
    - The goal dictionary is an association list in insertion order (what a
      Python [dict] iterates in); a role profile, whose order is never
      observed, is a [gmap].
    - Text is a [string] of 8-bit characters and [str.lower] acts on the
      letters A-Z, which is what Python's [str.lower] does on ASCII text.
    - [Goal.__repr__], which only formats a goal for display, is left out. *)

From Stdlib Require Import Reals Lra List Ascii String Bool Permutation Sorted.
From Corelib Require Import PrimFloat.
From stdpp Require Import base option gmap strings.

Set Warnings "-inexact-float".

Open Scope R_scope.

(** ** The clock and the monad *)

Record World := mkWorld {
  readings : nat -> R;   (* the n-th value [time.time()] returns *)
  ticks : nat            (* how many readings were consumed *)
}.

Inductive exn :=
| KeyError (key : option string).

Definition M (A : Type) : Type := World -> exn + (A * World).

#[global] Instance M_ret : MRet M := fun A a w => inr (a, w).

#[global] Instance M_bind : MBind M := fun A B k m w =>
  match m w with
  | inl e => inl e
  | inr (a, w') => k a w'
  end.

Definition raise {A} (e : exn) : M A := fun _ => inl e.

Definition time_time : M R :=
  fun w => inr (readings w (ticks w), mkWorld (readings w) (S (ticks w))).

(** ** Text: [str.lower] and the [in] operator on strings *)

Definition lower_ascii (c : ascii) : ascii :=
  let n := nat_of_ascii c in
  if ((65 <=? n) && (n <=? 90))%nat then ascii_of_nat (n + 32) else c.

Fixpoint lower (s : string) : string :=
  match s with
  | EmptyString => EmptyString
  | String c rest => String (lower_ascii c) (lower rest)
  end.

(** [str_in keyword text] is Python's [keyword in text]. *)
Fixpoint str_in (keyword text : string) : bool :=
  String.prefix keyword text
  || match text with
     | EmptyString => false
     | String _ rest => str_in keyword rest
     end.

(** ** Dictionaries in insertion order *)

Section Dict.
Context {V : Type}.

Definition dict := list (string * V).

Fixpoint dict_get (k : string) (d : dict) : option V :=
  match d with
  | [] => None
  | (k', v) :: rest => if String.eqb k k' then Some v else dict_get k rest
  end.

(** [d[k] = v]: an existing key keeps its position, a new key goes last. *)
Fixpoint dict_set (k : string) (v : V) (d : dict) : dict :=
  match d with
  | [] => [(k, v)]
  | (k', v') :: rest =>
      if String.eqb k k' then (k', v) :: rest
      else (k', v') :: dict_set k v rest
  end.

(** [k in d], for a key that may be [None]. *)
Definition dict_in (k : option string) (d : dict) : bool :=
  match k with
  | Some k => bool_decide (is_Some (dict_get k d))
  | None => false
  end.

Definition dict_keys (d : dict) : list string := map fst d.
Definition dict_values (d : dict) : list V := map snd d.
End Dict.

Arguments dict V : clear implicits.

(** ** Comparisons, [max] and [sorted] *)

Definition Rgtb (x y : R) : bool := if Rgt_dec x y then true else false.

Section Builtins.
Context {A : Type} (key : A -> R).

(** [max(items, key=key, default=default)]: the first item of greatest key. *)
Fixpoint max_from (best : A) (items : list A) : A :=
  match items with
  | [] => best
  | x :: rest => if Rgtb (key x) (key best) then max_from x rest
                 else max_from best rest
  end.

Definition py_max (items : list A) (default : A) : A :=
  match items with
  | [] => default
  | x :: rest => max_from x rest
  end.

(** A stable ascending sort. [x] stood before all of [sorted_tail]. *)
Fixpoint insert_stable (x : A) (sorted_tail : list A) : list A :=
  match sorted_tail with
  | [] => [x]
  | y :: rest => if Rlt_dec (key y) (key x) then y :: insert_stable x rest
                 else x :: y :: rest
  end.

Fixpoint sort_stable (l : list A) : list A :=
  match l with
  | [] => []
  | x :: rest => insert_stable x (sort_stable rest)
  end.

(** [sorted(l, key=key, reverse=reverse)]. As [list.sort] does, a reversed
    sort reverses the input, sorts it ascending, and reverses the result. *)
Definition sorted (l : list A) (reverse : bool) : list A :=
  if reverse then rev (sort_stable (rev l)) else sort_stable l.
End Builtins.

(** ** RoleContext *)

Module RoleContext.

Record t := mk {
  layered_role_skews : list (gmap string R)
}.

Definition __init__ (layered_role_skews : list (gmap string R)) : t :=
  mk layered_role_skews.

(** [role.get(trait, 1.0)]; the trait of a goal may be [None], which is
    never a key of a profile. *)
Definition role_get (role : gmap string R) (trait : option string) : R :=
  match trait with
  | Some tr => default 1.0 (role !! tr)
  | None => 1.0
  end.

Definition skew_for (self : t) (trait : option string) : R :=
  fold_left (fun skew role => skew * role_get role trait)
            (layered_role_skews self) 1.0.

End RoleContext.

(** ** Goal *)

Module Goal.

Record t := mk {
  name : string;
  category : option string;
  subcategory : option string;
  trait : option string;
  trait_sigma : R;
  score : R;
  last_updated : R
}.

Definition set_score (self : t) (v : R) : t :=
  mk (name self) (category self) (subcategory self) (trait self)
     (trait_sigma self) v (last_updated self).

Definition set_last_updated (self : t) (v : R) : t :=
  mk (name self) (category self) (subcategory self) (trait self)
     (trait_sigma self) (score self) v.

Definition __init__ (name : string) (category subcategory trait : option string)
    (trait_sigma initial_score : R) : M t :=
  now ← time_time;
  mret (mk name category subcategory trait trait_sigma initial_score now).

Definition decay (self : t) (rate : R) : M t :=
  now ← time_time;
  let elapsed := now - last_updated self in
  let self := set_score self (score self * exp (- rate * elapsed)) in
  now' ← time_time;
  mret (set_last_updated self now').

Definition reinforce (self : t) (boost : R) : M t :=
  let self := set_score self (score self + boost * trait_sigma self) in
  now ← time_time;
  mret (set_last_updated self now).

(** A [RoleContext] object is always truthy, so only [None] skips the skew. *)
Definition weighted_score (self : t) (role_context : option RoleContext.t) : R :=
  let skew := match role_context with
              | Some rc => RoleContext.skew_for rc (trait self)
              | None => 1.0
              end in
  score self * trait_sigma self * skew.

Definition default_rate : R := 0.01.
Definition default_boost : R := 0.5.

End Goal.

(** ** The score arithmetic of [Goal.reinforce] on doubles *)

Module Binary64.

Record World := mkWorld {
  readings : nat -> float;
  ticks : nat
}.

Definition time_time (w : World) : float * World :=
  (readings w (ticks w), mkWorld (readings w) (S (ticks w))).

Record goal := mk {
  name : string;
  category : option string;
  subcategory : option string;
  trait : option string;
  trait_sigma : float;
  score : float;
  last_updated : float
}.

Definition reinforce (self : goal) (boost : float) (w : World) : goal * World :=
  let new_score := (score self + boost * trait_sigma self)%float in
  let (now, w') := time_time w in
  (mk (name self) (category self) (subcategory self) (trait self)
      (trait_sigma self) new_score now, w').

End Binary64.

(** ** TangentAgent *)

Module TangentAgent.

Record Interpretation := mkInterpretation {
  stimulus : string;
  best_goal : option string;
  relevance_score : R;
  aligned : bool
}.

Record t := mk {
  goals : dict Goal.t;
  memory : list Interpretation;
  state : dict string;
  role_context : RoleContext.t
}.

Definition set_goals (self : t) (v : dict Goal.t) : t :=
  mk v (memory self) (state self) (role_context self).

Definition set_memory (self : t) (v : list Interpretation) : t :=
  mk (goals self) v (state self) (role_context self).

(** [{g.name: g for g in goals}] *)
Definition goals_by_name (gs : list Goal.t) : dict Goal.t :=
  fold_left (fun d g => dict_set (Goal.name g) g d) gs [].

Definition __init__ (gs : list Goal.t) (role_context : option RoleContext.t)
    : M t :=
  mret (mk (goals_by_name gs) [] []
           (match role_context with
            | Some rc => rc
            | None => RoleContext.__init__ []
            end)).

(** [for goal in self.goals.values(): goal.decay()], each goal written back
    under its key. *)
Fixpoint decay_each (d : dict Goal.t) : M (dict Goal.t) :=
  match d with
  | [] => mret []
  | (k, goal) :: rest =>
      goal' ← Goal.decay goal Goal.default_rate;
      rest' ← decay_each rest;
      mret ((k, goal') :: rest')
  end.

Definition _decay_goals (self : t) : M t :=
  d ← decay_each (goals self);
  mret (set_goals self d).

Definition _assess_relevance (self : t) (stimulus : string) : dict R :=
  fold_left
    (fun scores goal =>
       let keyword := lower (Goal.name goal) in
       if str_in keyword (lower stimulus)
       then dict_set (Goal.name goal)
              (Goal.weighted_score goal (Some (role_context self))) scores
       else scores)
    (dict_values (goals self)) [].

(** [self.goals[key]] *)
Definition goals_subscript (self : t) (key : option string) : M Goal.t :=
  match key with
  | Some k => match dict_get k (goals self) with
              | Some g => mret g
              | None => raise (KeyError key)
              end
  | None => raise (KeyError key)
  end.

Definition best_match_of (relevance_map : dict R) : option string * R :=
  py_max snd (map (fun kv => (Some (fst kv), snd kv)) relevance_map)
         (None, 0).

Definition perceive (self : t) (stimulus : string) : M (Interpretation * t) :=
  self ← _decay_goals self;
  let relevance_map := _assess_relevance self stimulus in
  let best_match := best_match_of relevance_map in
  let interpretation :=
    mkInterpretation stimulus (fst best_match) (snd best_match)
                     (Rgtb (snd best_match) 0.3) in
  self ← (if aligned interpretation && dict_in (fst best_match) (goals self)
          then goal ← goals_subscript self (fst best_match);
               goal' ← Goal.reinforce goal Goal.default_boost;
               mret (set_goals self
                       (match fst best_match with
                        | Some k => dict_set k goal' (goals self)
                        | None => goals self
                        end))
          else mret self);
  mret (interpretation,
        set_memory self (memory self ++ [interpretation])).

Definition prioritized_goals (self : t) : M (list Goal.t * t) :=
  mret (sorted (fun g => Goal.weighted_score g (Some (role_context self)))
               (dict_values (goals self)) true,
        self).

Definition str_of (o : option string) : string :=
  match o with
  | Some s => s
  | None => "None"
  end.

Definition act (self : t) : string :=
  match last (memory self) with
  | None => "Waiting for stimuli..."
  | Some latest =>
      if aligned latest
      then "Reinforcing '" +:+ str_of (best_goal latest)
           +:+ "': aligned with '" +:+ stimulus latest +:+ "'."
      else "Holding stimulus '" +:+ stimulus latest
           +:+ "'—not yet actionable."
  end.

End TangentAgent.

(** ** Call sequences on one goal *)

Inductive goal_op :=
| Decay (rate : R)
| Reinforce (boost : R).

Definition apply_op (g : Goal.t) (op : goal_op) : M Goal.t :=
  match op with
  | Decay rate => Goal.decay g rate
  | Reinforce boost => Goal.reinforce g boost
  end.

Fixpoint apply_ops (g : Goal.t) (ops : list goal_op) : M Goal.t :=
  match ops with
  | [] => mret g
  | op :: rest => g' ← apply_op g op; apply_ops g' rest
  end.

Definition boost_nonneg (op : goal_op) : Prop :=
  match op with
  | Decay _ => True
  | Reinforce boost => 0 <= boost
  end.

(** ** The specification's words, for comparison with the code *)

(** The product of a list of multipliers. *)
Definition product (l : list R) : R := fold_right Rmult 1 l.

(** A profile's multiplier for a trait; a profile lacking it contributes 1. *)
Definition multiplier (trait : string) (profile : gmap string R) : R :=
  match profile !! trait with
  | Some m => m
  | None => 1
  end.

(** Every key of the goal dictionary is the name of the goal stored under it,
    and no key occurs twice. *)
Definition keyed_by_name (d : dict Goal.t) : Prop :=
  Forall (fun kg => Goal.name (snd kg) = fst kg) d.

Definition wf (self : TangentAgent.t) : Prop :=
  keyed_by_name (TangentAgent.goals self)
  /\ NoDup (dict_keys (TangentAgent.goals self)).

(** Whether a goal's name occurs in a stimulus, case-insensitively. *)
Definition matches (stimulus : string) (g : Goal.t) : bool :=
  str_in (lower (Goal.name g)) (lower stimulus).

(** The sort key of [prioritized_goals], and the test that a goal has a
    given priority. *)
Definition priority (self : TangentAgent.t) (g : Goal.t) : R :=
  Goal.weighted_score g (Some (TangentAgent.role_context self)).

Definition has_key {A : Type} (key : A -> R) (v : R) (x : A) : bool :=
  if Req_dec_T (key x) v then true else false.

(** Decay keeps a goal's key, name, trait and sigma. *)
Definition same_identity (kg kg' : string * Goal.t) : Prop :=
  fst kg' = fst kg
  /\ Goal.name (snd kg') = Goal.name (snd kg)
  /\ Goal.trait (snd kg') = Goal.trait (snd kg)
  /\ Goal.trait_sigma (snd kg') = Goal.trait_sigma (snd kg).

(** Construction reports an error. *)
Definition construction_fails (gs : list Goal.t)
    (rc : option RoleContext.t) (w : World) : Prop :=
  exists e, TangentAgent.__init__ gs rc w = inl e.

(** Construction from goals of which two share a name reports an error. *)
Definition rejects_duplicate_names (gs : list Goal.t)
    (rc : option RoleContext.t) (w : World) : Prop :=
  ~ NoDup (map Goal.name gs) -> construction_fails gs rc w.

(** The last goal of a list that bears a given name. *)
Definition last_named (k : string) (gs : list Goal.t) : option Goal.t :=
  List.find (fun g => String.eqb (Goal.name g) k) (rev gs).

(** The world after one clock reading, and the reading the clock gives next. *)
Definition tick (w : World) : World := mkWorld (readings w) (S (ticks w)).
Definition now (w : World) : R := readings w (ticks w).

(** The relevance loop, from any dictionary of scores collected so far. *)
Definition assess_from (rc : RoleContext.t) (stim : string)
    (values : list Goal.t) (scores : dict R) : dict R :=
  fold_left
    (fun scores goal =>
       let keyword := lower (Goal.name goal) in
       if str_in keyword (lower stim)
       then dict_set (Goal.name goal)
              (Goal.weighted_score goal (Some rc)) scores
       else scores)
    values scores.

(** Orders on a sort key. *)
Definition ascending {A : Type} (key : A -> R) (x y : A) : Prop :=
  key x <= key y.
Definition descending {A : Type} (key : A -> R) (x y : A) : Prop :=
  key x >= key y.

(** The matching goals of a dictionary, in its order, each with its weighted
    score. *)
Definition relevance_entries (rc : RoleContext.t) (stim : string)
    (d : dict Goal.t) : dict R :=
  map (fun kg => (fst kg, Goal.weighted_score (snd kg) (Some rc)))
      (List.filter (fun kg => matches stim (snd kg)) d).

(** [for s in stimuli: agent.perceive(s)], collecting the interpretations. *)
Fixpoint perceive_each (self : TangentAgent.t) (stimuli : list string)
    : M (list TangentAgent.Interpretation * TangentAgent.t) :=
  match stimuli with
  | [] => mret ([], self)
  | s :: rest =>
      r ← TangentAgent.perceive self s;
      rs ← perceive_each (snd r) rest;
      mret (fst r :: fst rs, snd rs)
  end.

(** The increase of the score by one [reinforce] call, on doubles. *)
Definition increase64 (g : Binary64.goal) (boost : float)
    (w : Binary64.World) : float :=
  (Binary64.score (fst (Binary64.reinforce g boost w)) - Binary64.score g)%float.

(** On doubles, [reinforce] raises the score by exactly
    [boost * trait_sigma]. *)
Definition raises_by_boost_times_sigma (g : Binary64.goal) (boost : float)
    (w : Binary64.World) : Prop :=
  increase64 g boost w = (boost * Binary64.trait_sigma g)%float.

(** A goal of a given score on doubles, with [trait_sigma] 1.2. *)
Definition goal64 (score : float) : Binary64.goal :=
  Binary64.mk "build" None None (Some "constructive"%string) 1.2 score 0.

(** The clock never runs backwards. *)
Definition forward_clock (w : World) : Prop :=
  forall m n, (m <= n)%nat -> readings w m <= readings w n.

(** No goal bears a stamp later than the reading the clock gives next. *)
Definition stamps_not_ahead (d : dict Goal.t) (w : World) : Prop :=
  Forall (fun kg => Goal.last_updated (snd kg) <= now w) d.

(** Whether a text holds ASCII characters only. *)
Definition is_ascii (s : string) : bool :=
  forallb (fun c => (nat_of_ascii c <? 128)%nat) (list_ascii_of_string s).

(** * Proofs *)

(** ** The monad *)

Lemma bind_inr {A B} (m : M A) (k : A -> M B) w a w' :
  m w = inr (a, w') -> (m ≫= k) w = k a w'.
Proof. intros H. unfold mbind, M_bind. now rewrite H. Qed.

Lemma time_time_eq w : time_time w = inr (now w, tick w).
Proof. reflexivity. Qed.

(** ** Goal *)

Lemma decay_eq g rate w :
  Goal.decay g rate w =
  inr (Goal.mk (Goal.name g) (Goal.category g) (Goal.subcategory g)
         (Goal.trait g) (Goal.trait_sigma g)
         (Goal.score g * exp (- rate * (now w - Goal.last_updated g)))
         (now (tick w)),
       tick (tick w)).
Proof. reflexivity. Qed.

Lemma reinforce_eq g boost w :
  Goal.reinforce g boost w =
  inr (Goal.mk (Goal.name g) (Goal.category g) (Goal.subcategory g)
         (Goal.trait g) (Goal.trait_sigma g)
         (Goal.score g + boost * Goal.trait_sigma g)
         (now w),
       tick w).
Proof. reflexivity. Qed.

(** Over the reals [reinforce(b)] sets the score to [s + b * trait_sigma];
    the increase does not mention [s]. The call stamps [last_updated] with
    one clock reading and leaves the other fields alone. *)
Lemma reinforce_over_reals (g : Goal.t) (b : R) (w : World) :
  exists g',
    Goal.reinforce g b w = inr (g', tick w)
    /\ Goal.score g' = Goal.score g + b * Goal.trait_sigma g
    /\ Goal.score g' - Goal.score g = b * Goal.trait_sigma g
    /\ Goal.trait_sigma g' = Goal.trait_sigma g
    /\ Goal.name g' = Goal.name g
    /\ Goal.last_updated g' = now w.
Proof.
  eexists. rewrite reinforce_eq. split; [reflexivity|]. simpl.
  repeat split. lra.
Qed.

(** C6, as the code has it: on doubles [reinforce(b)] sets the score to
    [s + b * trait_sigma] as binary64 evaluates it, the product rounded and
    then the sum rounded; it stamps [last_updated] with one clock reading and
    leaves the other fields alone. Over the reals that is exactly
    [s + b * trait_sigma]. On doubles the increase depends on [s]: with boost
    0.5 and [trait_sigma] 1.2 it is 0.6 from score 0 and nothing from score
    1e16. *)
Theorem reinforce_adds_rounded_boost_times_sigma (g : Binary64.goal)
    (b : float) (w : Binary64.World) (gr : Goal.t) (br : R) (wr : World) :
  Binary64.reinforce g b w
  = (Binary64.mk (Binary64.name g) (Binary64.category g)
       (Binary64.subcategory g) (Binary64.trait g) (Binary64.trait_sigma g)
       (Binary64.score g + b * Binary64.trait_sigma g)%float
       (Binary64.readings w (Binary64.ticks w)),
     Binary64.mkWorld (Binary64.readings w) (S (Binary64.ticks w)))
  /\ (exists gr',
        Goal.reinforce gr br wr = inr (gr', tick wr)
        /\ Goal.score gr' = Goal.score gr + br * Goal.trait_sigma gr
        /\ Goal.trait_sigma gr' = Goal.trait_sigma gr)
  /\ increase64 (goal64 0) 0.5 w = 0.6%float
  /\ increase64 (goal64 1e16) 0.5 w = 0%float.
Proof.
  split; [reflexivity|]. split.
  - destruct (reinforce_over_reals gr br wr) as (gr' & Hrun & Hs & _ & Hsig & _).
    exists gr'. now repeat split.
  - split; vm_compute; reflexivity.
Qed.

(** C6, as the claim states it, fails on doubles: from score 1e16 a
    reinforcement with boost 0.5 and [trait_sigma] 1.2 leaves the score as it
    was, an increase of zero and not of [0.5 * 1.2]. *)
Lemma reinforce_absorbed_by_large_score :
  ~ raises_by_boost_times_sigma (goal64 1e16) 0.5
      (Binary64.mkWorld (fun _ => 0%float) 0).
Proof.
  unfold raises_by_boost_times_sigma. intros H.
  apply (f_equal (fun x => PrimFloat.eqb x 0)) in H.
  vm_compute in H. discriminate.
Qed.

(** C5: a goal is decayed at rate [r] when [t1] has elapsed since its last
    update and again when a further [t2] has elapsed since the update the
    first call stamped; its score is then the score one call leaves when
    [t1 + t2] has elapsed. The equation holds for every rate and for all
    durations, in particular for [r > 0] and non-negative [t1], [t2]. *)
Theorem decay_twice_is_decay_once (g : Goal.t) (r t1 t2 : R) (w w' : World) :
  now w = Goal.last_updated g + t1 ->
  now (tick (tick w)) = now (tick w) + t2 ->
  now w' = Goal.last_updated g + (t1 + t2) ->
  exists g1 w1 g2 w2 g12 w12,
    Goal.decay g r w = inr (g1, w1)
    /\ Goal.decay g1 r w1 = inr (g2, w2)
    /\ Goal.decay g r w' = inr (g12, w12)
    /\ Goal.score g2 = Goal.score g12
    /\ Goal.score g12 = Goal.score g * exp (- r * (t1 + t2)).
Proof.
  intros H1 H2 H12.
  do 6 eexists. rewrite !decay_eq.
  split; [reflexivity|]. split; [reflexivity|]. split; [reflexivity|].
  cbn [Goal.score Goal.last_updated].
  rewrite H1, H2, H12.
  replace (Goal.last_updated g + t1 - Goal.last_updated g) with t1 by lra.
  replace (now (tick w) + t2 - now (tick w)) with t2 by lra.
  replace (Goal.last_updated g + (t1 + t2) - Goal.last_updated g)
    with (t1 + t2) by lra.
  split; [|reflexivity].
  rewrite Rmult_assoc, <- exp_plus. f_equal. f_equal. lra.
Qed.

Lemma decay_twice_is_decay_once_witness :
  let g := Goal.mk "build" None None None 1.2 1.0 0 in
  let w := mkWorld INR 1 in
  exists g1 w1 g2 w2 g12 w12,
    Goal.decay g 0.01 w = inr (g1, w1)
    /\ Goal.decay g1 0.01 w1 = inr (g2, w2)
    /\ Goal.decay g 0.01 (mkWorld INR 2) = inr (g12, w12)
    /\ Goal.score g2 = Goal.score g12
    /\ Goal.score g12 = Goal.score g * exp (- (0.01) * (1 + 1)).
Proof.
  intros g w.
  apply (decay_twice_is_decay_once g 0.01 1 1 w (mkWorld INR 2));
    unfold now, tick, g, w; simpl; lra.
Defined.

Lemma apply_op_eq g op w :
  exists g',
    apply_op g op w = inr (g', match op with
                               | Decay _ => tick (tick w)
                               | Reinforce _ => tick w
                               end)
    /\ Goal.trait_sigma g' = Goal.trait_sigma g
    /\ Goal.name g' = Goal.name g
    /\ Goal.score g' =
       match op with
       | Decay rate =>
           Goal.score g * exp (- rate * (now w - Goal.last_updated g))
       | Reinforce boost => Goal.score g + boost * Goal.trait_sigma g
       end.
Proof.
  destruct op as [rate|boost]; simpl.
  - rewrite decay_eq. eexists. split; [reflexivity|]. now simpl.
  - rewrite reinforce_eq. eexists. split; [reflexivity|]. now simpl.
Qed.

(** C8: a goal starts with a non-negative score and a positive [trait_sigma];
    after any sequence of [decay] calls (any rate, any clock readings, so in
    particular positive rates and non-negative elapsed times) and [reinforce]
    calls with a non-negative boost (the default 0.5 is one), the sequence has
    returned normally, the score is non-negative, and [trait_sigma] is what it
    was. *)
Theorem score_stays_nonnegative (ops : list goal_op) (g : Goal.t) (w : World) :
  0 <= Goal.score g ->
  0 < Goal.trait_sigma g ->
  Forall boost_nonneg ops ->
  exists g' w',
    apply_ops g ops w = inr (g', w')
    /\ 0 <= Goal.score g'
    /\ Goal.trait_sigma g' = Goal.trait_sigma g.
Proof.
  revert g w. induction ops as [|op rest IH]; intros g w Hs Hsig Hops.
  - exists g, w. now repeat split.
  - inversion Hops as [|? ? Hop Hrest]; subst.
    destruct (apply_op_eq g op w) as (g1 & Hrun & Hsig1 & _ & Hscore1).
    destruct (IH g1 (match op with
                     | Decay _ => tick (tick w)
                     | Reinforce _ => tick w
                     end)) as (g' & w' & Hrun' & Hs' & Hsig'); auto.
    + rewrite Hscore1. destruct op as [rate|boost]; simpl in Hop.
      * apply Rmult_le_pos; [assumption|]. left. apply exp_pos.
      * assert (0 <= boost * Goal.trait_sigma g)
          by (apply Rmult_le_pos; lra).
        lra.
    + now rewrite Hsig1.
    + exists g', w'. split; [|split; [assumption|congruence]].
      simpl. now rewrite (bind_inr _ _ _ _ _ Hrun).
Qed.

Lemma score_stays_nonnegative_witness :
  exists g' w',
    apply_ops (Goal.mk "eat" None None (Some "survival") 0.7 0.2 0)
              [Decay 0.01; Reinforce 0.5; Decay 0.01]
              (mkWorld INR 3) = inr (g', w')
    /\ 0 <= Goal.score g'
    /\ Goal.trait_sigma g' = 0.7.
Proof.
  apply (score_stays_nonnegative
           [Decay 0.01; Reinforce 0.5; Decay 0.01]
           (Goal.mk "eat" None None (Some "survival") 0.7 0.2 0)
           (mkWorld INR 3)); simpl; try lra.
  repeat constructor; simpl; lra.
Defined.

(** ** RoleContext *)

Lemma fold_skew_from (trait : option string) (profiles : list (gmap string R))
    (acc : R) :
  fold_left (fun skew role => skew * RoleContext.role_get role trait)
            profiles acc
  = acc * product (map (fun role => RoleContext.role_get role trait) profiles).
Proof.
  revert acc. induction profiles as [|p rest IH]; intros acc; simpl.
  - lra.
  - rewrite IH. unfold product. simpl. lra.
Qed.

Lemma role_get_multiplier (trait : string) (profile : gmap string R) :
  RoleContext.role_get profile (Some trait) = multiplier trait profile.
Proof.
  unfold RoleContext.role_get, multiplier.
  destruct (profile !! trait); simpl; lra.
Qed.

(** C7: over an empty profile list [skew_for] is 1.0 for every trait name, and
    over profiles P1..Pn it is the product of the profiles' multipliers for
    the trait, a profile lacking the trait contributing 1.0. [skew_for] is a
    total function of the context and the trait: it has no state to change
    and no way to fail. *)
Theorem skew_for_is_product (trait : string) (profiles : list (gmap string R)) :
  RoleContext.skew_for (RoleContext.__init__ []) (Some trait) = 1.0
  /\ RoleContext.skew_for (RoleContext.__init__ profiles) (Some trait)
     = product (map (multiplier trait) profiles)
  /\ (forall p : gmap string R,
        p !! trait = None -> RoleContext.role_get p (Some trait) = 1.0).
Proof.
  split; [|split].
  - unfold RoleContext.skew_for. simpl. reflexivity.
  - unfold RoleContext.skew_for, RoleContext.__init__.
    cbn [RoleContext.layered_role_skews]. rewrite fold_skew_from.
    rewrite (map_ext _ (multiplier trait)) by (intros; apply role_get_multiplier).
    lra.
  - intros p Hp. unfold RoleContext.role_get. now rewrite Hp.
Qed.

Lemma skew_for_unset_trait (self : RoleContext.t) :
  RoleContext.skew_for self None = 1.0.
Proof.
  unfold RoleContext.skew_for. rewrite fold_skew_from.
  induction (RoleContext.layered_role_skews self) as [|p rest IH];
    unfold product in *; simpl in *; lra.
Qed.

(** ** [max] and [sorted] *)

Section BuiltinFacts.
Context {A : Type} (key : A -> R).

Lemma insert_stable_perm x l : Permutation (insert_stable key x l) (x :: l).
Proof.
  induction l as [|y rest IH]; simpl; [reflexivity|].
  destruct (Rlt_dec (key y) (key x)); [|reflexivity].
  rewrite IH. apply perm_swap.
Qed.

Lemma sort_stable_perm l : Permutation (sort_stable key l) l.
Proof.
  induction l as [|x rest IH]; simpl; [reflexivity|].
  rewrite insert_stable_perm. now rewrite IH.
Qed.

Lemma insert_stable_sorted x l :
  StronglySorted (ascending key) l ->
  StronglySorted (ascending key) (insert_stable key x l).
Proof.
  induction 1 as [|y rest Hrest IH Hy]; simpl.
  - repeat constructor.
  - destruct (Rlt_dec (key y) (key x)) as [Hlt|Hge].
    + constructor; [assumption|].
      rewrite insert_stable_perm. constructor; [|assumption].
      unfold ascending. lra.
    + assert (Hxy : ascending key x y) by (unfold ascending; lra).
      constructor; [now constructor|].
      constructor; [assumption|].
      eapply List.Forall_impl; [|exact Hy].
      unfold ascending in *. intros z Hz. lra.
Qed.

Lemma sort_stable_sorted l : StronglySorted (ascending key) (sort_stable key l).
Proof.
  induction l as [|x rest IH]; simpl; [constructor|].
  now apply insert_stable_sorted.
Qed.

Lemma insert_stable_filter v x l :
  List.filter (has_key key v) (insert_stable key x l)
  = List.filter (has_key key v) (x :: l).
Proof.
  induction l as [|y rest IH]; [reflexivity|].
  cbn [insert_stable]. destruct (Rlt_dec (key y) (key x)) as [Hlt|Hge];
    [|reflexivity].
  cbn [List.filter] in *. rewrite IH. unfold has_key.
  destruct (Req_dec_T (key x) v), (Req_dec_T (key y) v);
    try reflexivity. lra.
Qed.

Lemma sort_stable_filter v l :
  List.filter (has_key key v) (sort_stable key l)
  = List.filter (has_key key v) l.
Proof.
  induction l as [|x rest IH]; [reflexivity|].
  cbn [sort_stable]. rewrite insert_stable_filter.
  cbn [List.filter]. now rewrite IH.
Qed.

Lemma sorted_snoc (rel : A -> A -> Prop) l x :
  StronglySorted rel l -> Forall (fun y => rel y x) l ->
  StronglySorted rel (l ++ [x]).
Proof.
  induction 1 as [|y rest Hrest IH Hy]; intros Hall; simpl.
  - repeat constructor.
  - inversion Hall; subst. constructor; [now apply IH|].
    apply List.Forall_app. split; [assumption|]. now constructor.
Qed.

Lemma sorted_rev l :
  StronglySorted (ascending key) l -> StronglySorted (descending key) (rev l).
Proof.
  induction 1 as [|y rest Hrest IH Hy]; simpl; [constructor|].
  apply sorted_snoc; [assumption|].
  apply List.Forall_rev. eapply List.Forall_impl; [|exact Hy].
  unfold ascending, descending. intros z Hz. lra.
Qed.

(** What [sorted(l, key=key, reverse=True)] returns. *)
Lemma sorted_reverse_spec l :
  Permutation (sorted key l true) l
  /\ StronglySorted (descending key) (sorted key l true)
  /\ forall v, List.filter (has_key key v) (sorted key l true)
               = List.filter (has_key key v) l.
Proof.
  unfold sorted. split; [|split].
  - rewrite <- Permutation_rev, sort_stable_perm. symmetry.
    apply Permutation_rev.
  - apply sorted_rev, sort_stable_sorted.
  - intros v. rewrite filter_rev, sort_stable_filter, filter_rev.
    apply rev_involutive.
Qed.
End BuiltinFacts.

(** C4: [prioritized_goals()] returns normally; the list holds exactly the
    owned goals, in descending order of [weighted_score(role_context)]; for
    every value [v] the goals of weighted score [v] appear in the order the
    goal dictionary holds them, its insertion order; the agent (goals and
    history) and the clock are what they were. *)
Theorem prioritized_goals_descending_stable (self : TangentAgent.t) (w : World) :
  exists l,
    TangentAgent.prioritized_goals self w = inr ((l, self), w)
    /\ Permutation l (dict_values (TangentAgent.goals self))
    /\ StronglySorted (fun g1 g2 => priority self g1 >= priority self g2) l
    /\ forall v, List.filter (has_key (priority self) v) l
                 = List.filter (has_key (priority self) v)
                               (dict_values (TangentAgent.goals self)).
Proof.
  eexists. split; [reflexivity|].
  apply (sorted_reverse_spec (priority self)).
Qed.

(** ** Dictionaries *)

Section DictFacts.
Context {V : Type}.
Implicit Types (d : dict V) (k : string) (v : V).

Lemma dict_set_In k0 v0 d k v :
  In (k, v) (dict_set k0 v0 d) -> (k = k0 /\ v = v0) \/ In (k, v) d.
Proof.
  induction d as [|[k' v'] rest IH]; simpl.
  - intros [H|[]]. inversion H. now left.
  - destruct (String.eqb_spec k0 k') as [->|Hne]; simpl.
    + intros [H|H]; [inversion H; now left|right; now right].
    + intros [H|H]; [right; now left|].
      destruct (IH H) as [?|?]; [now left|right; now right].
Qed.

Lemma dict_get_set_eq k v d : dict_get k (dict_set k v d) = Some v.
Proof.
  induction d as [|[k' v'] rest IH]; simpl.
  - now rewrite String.eqb_refl.
  - destruct (String.eqb_spec k k') as [->|Hne]; simpl.
    + now rewrite String.eqb_refl.
    + destruct (String.eqb_spec k k'); [contradiction|assumption].
Qed.

Lemma dict_get_set_ne k k' v d :
  k' <> k -> dict_get k' (dict_set k v d) = dict_get k' d.
Proof.
  intros Hne. induction d as [|[k1 v1] rest IH]; simpl.
  - destruct (String.eqb_spec k' k); [contradiction|reflexivity].
  - destruct (String.eqb_spec k k1) as [->|Hk]; simpl.
    + destruct (String.eqb_spec k' k1); [contradiction|reflexivity].
    + now rewrite IH.
Qed.

Lemma dict_keys_set_present k v d :
  is_Some (dict_get k d) -> dict_keys (dict_set k v d) = dict_keys d.
Proof.
  induction d as [|[k1 v1] rest IH]; simpl.
  - intros [? ?]; discriminate.
  - destruct (String.eqb_spec k k1) as [->|Hk]; simpl; [reflexivity|].
    intros H. now rewrite IH.
Qed.

Lemma dict_keys_set_absent k v d :
  dict_get k d = None -> dict_keys (dict_set k v d) = dict_keys d ++ [k].
Proof.
  induction d as [|[k1 v1] rest IH]; simpl; [reflexivity|].
  destruct (String.eqb_spec k k1) as [->|Hk]; simpl; [discriminate|].
  intros H. now rewrite IH.
Qed.

Lemma dict_get_None_keys k d : dict_get k d = None <-> ~ In k (dict_keys d).
Proof.
  induction d as [|[k1 v1] rest IH]; simpl; [tauto|].
  destruct (String.eqb_spec k k1) as [->|Hk].
  - split; [discriminate|]. intros H. exfalso. apply H. now left.
  - rewrite IH. split; [intros H [?|?]; [congruence|contradiction]|tauto].
Qed.

Lemma dict_get_In k v d : dict_get k d = Some v -> In (k, v) d.
Proof.
  induction d as [|[k1 v1] rest IH]; simpl; [discriminate|].
  destruct (String.eqb_spec k k1) as [->|Hk].
  - intros [= ->]. now left.
  - intros H. right. now apply IH.
Qed.

Lemma dict_In_get k v d :
  NoDup (dict_keys d) -> In (k, v) d -> dict_get k d = Some v.
Proof.
  induction d as [|[k1 v1] rest IH]; simpl; [contradiction|].
  intros Hnd [H|H].
  - inversion H; subst. now rewrite String.eqb_refl.
  - inversion Hnd as [|? ? Hnotin Hnd']; subst.
    destruct (String.eqb_spec k k1) as [->|Hk]; [|now apply IH].
    exfalso. apply Hnotin, list_elem_of_In.
    change k1 with (fst (k1, v)). now apply in_map.
Qed.

Lemma dict_keys_set_NoDup k v d :
  NoDup (dict_keys d) -> NoDup (dict_keys (dict_set k v d)).
Proof.
  intros Hnd. destruct (dict_get k d) as [v0|] eqn:Hget.
  - rewrite dict_keys_set_present; [assumption|]. now exists v0.
  - rewrite dict_keys_set_absent by assumption.
    apply NoDup_app. split; [assumption|split; [|apply NoDup_singleton]].
    intros x Hx Hin. apply list_elem_of_In in Hx.
    apply list_elem_of_In in Hin. destruct Hin as [<-|[]].
    apply dict_get_None_keys in Hget. contradiction.
Qed.
End DictFacts.

(** ** Construction of the agent *)

Lemma keyed_by_name_set g d :
  keyed_by_name d -> keyed_by_name (dict_set (Goal.name g) g d).
Proof.
  unfold keyed_by_name.
  induction 1 as [|[k' g'] rest Hk Hrest IH]; simpl.
  - now repeat constructor.
  - destruct (String.eqb_spec (Goal.name g) k') as [Heq|Hne].
    + constructor; [exact Heq|assumption].
    + constructor; assumption.
Qed.

Lemma goals_by_name_from gs acc :
  keyed_by_name acc -> NoDup (dict_keys acc) ->
  let d := fold_left (fun d g => dict_set (Goal.name g) g d) gs acc in
  keyed_by_name d /\ NoDup (dict_keys d)
  /\ forall k, dict_get k d = match last_named k gs with
                              | Some g => Some g
                              | None => dict_get k acc
                              end.
Proof.
  revert acc. induction gs as [|g rest IH] using rev_ind; intros acc Hk Hnd.
  - simpl. repeat split; assumption.
  - destruct (IH acc Hk Hnd) as (Hk' & Hnd' & Hget).
    cbv zeta in *. rewrite fold_left_app. cbn [fold_left].
    split; [now apply keyed_by_name_set|].
    split; [now apply dict_keys_set_NoDup|].
    intros k. unfold last_named in *. rewrite rev_app_distr. cbn [rev app List.find].
    destruct (String.eqb_spec (Goal.name g) k) as [<-|Hne].
    + apply dict_get_set_eq.
    + rewrite dict_get_set_ne by congruence. apply Hget.
Qed.

Lemma init_eq gs rc w :
  TangentAgent.__init__ gs rc w
  = inr (TangentAgent.mk (TangentAgent.goals_by_name gs) [] []
           (match rc with
            | Some rc => rc
            | None => RoleContext.__init__ []
            end), w).
Proof. reflexivity. Qed.

Lemma init_wf gs rc w :
  exists a, TangentAgent.__init__ gs rc w = inr (a, w) /\ wf a.
Proof.
  eexists. split; [apply init_eq|].
  destruct (goals_by_name_from gs []) as (Hk & Hnd & _);
    [constructor|constructor|].
  split; assumption.
Qed.

(** C9, as the code has it: construction never reports an error, whatever the
    names of the goals. It reads no clock, starts with an empty history, and
    its goal mapping has one entry per name, holding the last goal of the
    collection that bears the name. *)
Theorem construction_keeps_last_of_each_name (gs : list Goal.t)
    (rc : option RoleContext.t) (w : World) :
  exists a,
    TangentAgent.__init__ gs rc w = inr (a, w)
    /\ TangentAgent.memory a = []
    /\ NoDup (dict_keys (TangentAgent.goals a))
    /\ forall k, dict_get k (TangentAgent.goals a) = last_named k gs.
Proof.
  eexists. split; [apply init_eq|]. cbn [TangentAgent.memory TangentAgent.goals].
  destruct (goals_by_name_from gs []) as (_ & Hnd & Hget);
    [constructor|constructor|].
  split; [reflexivity|]. split; [exact Hnd|].
  intros k. unfold TangentAgent.goals_by_name. rewrite Hget.
  now destruct (last_named k gs).
Qed.

(** C9, as the claim states it, fails: two goals named "build" are accepted,
    and the mapping holds only the second. *)
Lemma duplicate_names_not_rejected :
  ~ rejects_duplicate_names
      [Goal.mk "build" None None (Some "constructive") 1.2 1.0 0;
       Goal.mk "build" None None (Some "analytical") 1.4 2.0 0]
      None (mkWorld INR 0).
Proof.
  unfold rejects_duplicate_names, construction_fails. intros H.
  destruct H as [e He].
  - cbn [map Goal.name]. intros Hnd. apply NoDup_cons in Hnd as [Hnotin _].
    apply Hnotin. now left.
  - rewrite init_eq in He. discriminate.
Qed.

(** ** [perceive] *)

Lemma decay_each_spec d w :
  exists d' w',
    TangentAgent.decay_each d w = inr (d', w')
    /\ Forall2 same_identity d d'
    /\ readings w' = readings w.
Proof.
  revert w. induction d as [|[k g] rest IH]; intros w.
  - exists [], w. repeat split. constructor.
  - destruct (IH (tick (tick w))) as (rest' & w' & Hrun & Hall & Hclock).
    eexists (_ :: rest'), w'. split; [|split].
    + cbn [TangentAgent.decay_each].
      rewrite (bind_inr _ _ _ _ _ (decay_eq g Goal.default_rate w)).
      rewrite (bind_inr _ _ _ _ _ Hrun). reflexivity.
    + constructor; [|assumption]. repeat split.
    + exact Hclock.
Qed.

Lemma same_identity_keyed d d' :
  Forall2 same_identity d d' -> keyed_by_name d -> keyed_by_name d'.
Proof.
  unfold keyed_by_name. induction 1 as [|kg kg' d d' Hid Hrest IH];
    intros Hk; inversion Hk; subst; constructor; auto.
  destruct Hid as (Hfst & Hname & _). congruence.
Qed.

Lemma same_identity_keys d d' :
  Forall2 same_identity d d' -> dict_keys d' = dict_keys d.
Proof.
  induction 1 as [|kg kg' d d' Hid Hrest IH]; simpl; [reflexivity|].
  destruct Hid as (Hfst & _). congruence.
Qed.

Lemma same_identity_matches stim d d' :
  Forall2 same_identity d d' ->
  Forall (fun kg => matches stim (snd kg) = false) d ->
  Forall (fun kg => matches stim (snd kg) = false) d'.
Proof.
  induction 1 as [|kg kg' d d' Hid Hrest IH];
    intros Hk; inversion Hk; subst; constructor; auto.
  destruct Hid as (_ & Hname & _). unfold matches in *. congruence.
Qed.

Lemma decay_goals_spec self w :
  exists d' w',
    TangentAgent._decay_goals self w = inr (TangentAgent.set_goals self d', w')
    /\ TangentAgent.decay_each (TangentAgent.goals self) w = inr (d', w')
    /\ Forall2 same_identity (TangentAgent.goals self) d'.
Proof.
  destruct (decay_each_spec (TangentAgent.goals self) w)
    as (d' & w' & Hrun & Hall & _).
  exists d', w'. split; [|split; assumption].
  unfold TangentAgent._decay_goals.
  now rewrite (bind_inr _ _ _ _ _ Hrun).
Qed.

Lemma Rgtb_true x y : Rgtb x y = true <-> x > y.
Proof. unfold Rgtb. destruct (Rgt_dec x y); split; intros; auto; discriminate. Qed.

Lemma Rgtb_false x y : Rgtb x y = false <-> x <= y.
Proof.
  unfold Rgtb. destruct (Rgt_dec x y); split; intros; auto; try discriminate; lra.
Qed.

Section MaxFacts.
Context {A : Type} (key : A -> R).

Lemma max_from_spec best l :
  let m := max_from key best l in
  (m = best \/ In m l)
  /\ key best <= key m
  /\ Forall (fun x => key x <= key m) l.
Proof.
  revert best. induction l as [|x rest IH]; intros best; cbn [max_from].
  - cbv zeta. split; [now left|]. split; [lra|constructor].
  - destruct (Rgtb (key x) (key best)) eqn:Hcmp.
    + apply Rgtb_true in Hcmp.
      destruct (IH x) as (Hin & Hge & Hall). cbv zeta in *.
      split; [right; destruct Hin as [->|?]; [now left|now right]|].
      split; [lra|]. constructor; assumption.
    + apply Rgtb_false in Hcmp.
      destruct (IH best) as (Hin & Hge & Hall). cbv zeta in *.
      split; [destruct Hin as [?|?]; [now left|right; now right]|].
      split; [assumption|]. constructor; [lra|assumption].
Qed.

Lemma py_max_spec l default :
  (l = [] /\ py_max key l default = default)
  \/ (In (py_max key l default) l
      /\ Forall (fun x => key x <= key (py_max key l default)) l).
Proof.
  destruct l as [|x rest]; [now left|right]. cbn [py_max].
  destruct (max_from_spec x rest) as (Hin & Hge & Hall). cbv zeta in *.
  split; [destruct Hin as [->|?]; [now left|now right]|].
  constructor; assumption.
Qed.
End MaxFacts.

Lemma best_match_spec (m : dict R) :
  (m = [] /\ TangentAgent.best_match_of m = (None, 0))
  \/ exists k v,
       In (k, v) m
       /\ TangentAgent.best_match_of m = (Some k, v)
       /\ Forall (fun kv => snd kv <= v) m.
Proof.
  unfold TangentAgent.best_match_of.
  destruct (py_max_spec (A := option string * R) snd
              (map (fun kv => (Some (fst kv), snd kv)) m) (None, 0))
    as [[Hnil Hmax]|[Hin Hall]].
  - left. split; [|assumption]. now destruct m.
  - right. apply in_map_iff in Hin as ([k v] & Heq & Hin).
    exists k, v. split; [assumption|]. split; [now rewrite <- Heq|].
    rewrite <- Heq in Hall. cbn [fst snd] in Hall.
    rewrite List.Forall_map in Hall. exact Hall.
Qed.

Lemma assess_eq self stim :
  TangentAgent._assess_relevance self stim
  = assess_from (TangentAgent.role_context self) stim
                (dict_values (TangentAgent.goals self)) [].
Proof. reflexivity. Qed.

Lemma assess_from_nomatch rc stim values scores :
  Forall (fun g => matches stim g = false) values ->
  assess_from rc stim values scores = scores.
Proof.
  revert scores. induction values as [|g rest IH]; intros scores Hall;
    [reflexivity|].
  inversion Hall as [|? ? Hg Hrest]; subst.
  unfold assess_from in *. cbn [fold_left]. unfold matches in Hg.
  rewrite Hg. now apply IH.
Qed.

Lemma assess_from_In rc stim values scores k v :
  In (k, v) (assess_from rc stim values scores) ->
  In (k, v) scores
  \/ exists g, In g values /\ Goal.name g = k /\ matches stim g = true
               /\ v = Goal.weighted_score g (Some rc).
Proof.
  revert scores. induction values as [|g rest IH]; intros scores Hin;
    [now left|].
  unfold assess_from in *. cbn [fold_left] in Hin.
  apply IH in Hin as [Hin|(g0 & Hg0 & Hrest)].
  - destruct (str_in (lower (Goal.name g)) (lower stim)) eqn:Hm; [|now left].
    apply dict_set_In in Hin as [[-> ->]|Hin]; [|now left].
    right. exists g. repeat split; [now left|exact Hm].
  - right. exists g0. split; [now right|exact Hrest].
Qed.

Lemma assess_from_other rc stim values scores k :
  Forall (fun g => Goal.name g <> k) values ->
  dict_get k (assess_from rc stim values scores) = dict_get k scores.
Proof.
  revert scores. induction values as [|g rest IH]; intros scores Hall;
    [reflexivity|].
  inversion Hall as [|? ? Hg Hrest]; subst.
  unfold assess_from in *. cbn [fold_left]. rewrite IH by assumption.
  destruct (str_in (lower (Goal.name g)) (lower stim)); [|reflexivity].
  apply dict_get_set_ne. congruence.
Qed.

Lemma keyed_values_In (d : dict Goal.t) g :
  keyed_by_name d -> In g (dict_values d) -> In (Goal.name g, g) d.
Proof.
  unfold keyed_by_name, dict_values. intros Hk Hin.
  apply in_map_iff in Hin as ([k g0] & Heq & Hin). simpl in Heq. subst g0.
  rewrite List.Forall_forall in Hk. specialize (Hk _ Hin). simpl in Hk.
  now rewrite Hk.
Qed.

Lemma assess_from_cons rc stim g rest scores :
  assess_from rc stim (g :: rest) scores
  = assess_from rc stim rest
      (if str_in (lower (Goal.name g)) (lower stim)
       then dict_set (Goal.name g) (Goal.weighted_score g (Some rc)) scores
       else scores).
Proof. reflexivity. Qed.

Lemma assess_from_get rc stim (d : dict Goal.t) scores k g :
  keyed_by_name d -> NoDup (dict_keys d) ->
  dict_get k d = Some g -> matches stim g = true ->
  dict_get k (assess_from rc stim (dict_values d) scores)
  = Some (Goal.weighted_score g (Some rc)).
Proof.
  revert scores. induction d as [|[k1 g1] rest IH]; intros scores Hk Hnd Hget Hm;
    [discriminate|].
  inversion Hk as [|? ? Hk1 Hkrest]; subst. simpl in Hk1.
  apply NoDup_cons in Hnd as [Hnotin Hnd].
  cbn [dict_get] in Hget. cbn [dict_values map snd].
  change (map snd rest) with (dict_values rest).
  rewrite assess_from_cons.
  destruct (String.eqb_spec k k1) as [->|Hne].
  - injection Hget as ->. unfold matches in Hm. rewrite Hm, Hk1.
    rewrite assess_from_other; [apply dict_get_set_eq|].
    apply List.Forall_forall. intros g0 Hg0 Heq.
    apply Hnotin, list_elem_of_In.
    apply keyed_values_In in Hg0; [|assumption].
    rewrite Heq in Hg0. exact (in_map fst _ _ Hg0).
  - now apply IH.
Qed.

Lemma str_in_empty text : str_in "" text = true.
Proof. now destruct text. Qed.

Lemma reinforced_key_is_owned self stim k v :
  keyed_by_name (TangentAgent.goals self) ->
  In (k, v) (TangentAgent._assess_relevance self stim) ->
  exists g, In (k, g) (TangentAgent.goals self)
            /\ matches stim g = true
            /\ v = priority self g.
Proof.
  intros Hk Hin. rewrite assess_eq in Hin.
  apply assess_from_In in Hin as [[]|(g & Hg & Hname & Hm & Hv)].
  exists g. split; [|split; assumption].
  rewrite <- Hname. now apply keyed_values_In.
Qed.

Lemma In_dict_get {V} (k : string) (v : V) (d : dict V) :
  In (k, v) d -> is_Some (dict_get k d).
Proof.
  induction d as [|[k1 v1] rest IH]; simpl; [contradiction|].
  destruct (String.eqb_spec k k1); [now eexists|].
  intros [H|H]; [congruence|now apply IH].
Qed.

(** The two ways a [perceive] call can go once the goals are decayed. *)
Lemma perceive_cases self stim w :
  exists d' w',
    TangentAgent.decay_each (TangentAgent.goals self) w = inr (d', w')
    /\ Forall2 same_identity (TangentAgent.goals self) d'
    /\ let self' := TangentAgent.set_goals self d' in
       let bm := TangentAgent.best_match_of
                   (TangentAgent._assess_relevance self' stim) in
       let interp := TangentAgent.mkInterpretation stim (fst bm) (snd bm)
                       (Rgtb (snd bm) 0.3) in
       (Rgtb (snd bm) 0.3 && dict_in (fst bm) d' = false
        /\ TangentAgent.perceive self stim w
           = inr ((interp,
                   TangentAgent.set_memory self'
                     (TangentAgent.memory self ++ [interp])), w'))
       \/ (exists k g g',
             fst bm = Some k /\ snd bm > 0.3 /\ dict_get k d' = Some g
             /\ Goal.reinforce g Goal.default_boost w' = inr (g', tick w')
             /\ TangentAgent.perceive self stim w
                = inr ((interp,
                        TangentAgent.set_memory
                          (TangentAgent.set_goals self' (dict_set k g' d'))
                          (TangentAgent.memory self ++ [interp])), tick w')).
Proof.
  destruct (decay_goals_spec self w) as (d' & w' & Hrun & Heach & Hid).
  exists d', w'. split; [assumption|]. split; [assumption|]. cbv zeta.
  unfold TangentAgent.perceive. rewrite (bind_inr _ _ _ _ _ Hrun).
  cbn [TangentAgent.aligned].
  set (self' := TangentAgent.set_goals self d').
  change (TangentAgent.goals self') with d'.
  change (TangentAgent.memory self') with (TangentAgent.memory self).
  set (bm := TangentAgent.best_match_of _).
  destruct (Rgtb (snd bm) 0.3 && dict_in (fst bm) d') eqn:Hcond.
  - right. apply andb_true_iff in Hcond as [Hal Hin].
    apply Rgtb_true in Hal.
    destruct (fst bm) as [k|] eqn:Hk; [|discriminate].
    cbn [dict_in] in Hin. apply bool_decide_eq_true in Hin as [g Hg].
    exists k, g. eexists. split; [reflexivity|]. split; [assumption|].
    split; [assumption|]. split; [apply reinforce_eq|].
    unfold mbind, M_bind, TangentAgent.goals_subscript.
    change (TangentAgent.goals self') with d'. rewrite Hg. reflexivity.
  - left. split; reflexivity.
Qed.

Lemma decayed_values_nomatch stim d d' :
  Forall2 same_identity d d' ->
  Forall (fun kg => matches stim (snd kg) = false) d ->
  Forall (fun g => matches stim g = false) (dict_values d').
Proof.
  intros Hid Hall. apply (same_identity_matches stim) in Hid; [|assumption].
  unfold dict_values. now rewrite List.Forall_map.
Qed.

(** C3: when the agent owns no goal, or no owned goal's name occurs in the
    stimulus, [perceive] returns normally an interpretation with no best
    goal, relevance 0 and [aligned] false; the goals are exactly as the decay
    pass left them and the clock gave no reading beyond those of the decay
    pass, so no goal was reinforced; the interpretation is appended to the
    history. *)
Theorem perceive_without_match (self : TangentAgent.t) (stim : string)
    (w : World) :
  TangentAgent.goals self = []
  \/ Forall (fun kg => matches stim (snd kg) = false) (TangentAgent.goals self) ->
  exists d' w' interp self'',
    TangentAgent.decay_each (TangentAgent.goals self) w = inr (d', w')
    /\ TangentAgent.perceive self stim w = inr ((interp, self''), w')
    /\ TangentAgent.stimulus interp = stim
    /\ TangentAgent.best_goal interp = None
    /\ TangentAgent.relevance_score interp = 0
    /\ TangentAgent.aligned interp = false
    /\ TangentAgent.goals self'' = d'
    /\ TangentAgent.memory self'' = TangentAgent.memory self ++ [interp].
Proof.
  intros Hnone.
  assert (Hall : Forall (fun kg => matches stim (snd kg) = false)
                        (TangentAgent.goals self)).
  { destruct Hnone as [->|?]; [constructor|assumption]. }
  destruct (perceive_cases self stim w) as (d' & w' & Heach & Hid & Hcases).
  cbv zeta in Hcases.
  assert (Hbm : TangentAgent.best_match_of
                  (TangentAgent._assess_relevance
                     (TangentAgent.set_goals self d') stim) = (None, 0)).
  { rewrite assess_eq. cbn [TangentAgent.goals TangentAgent.set_goals].
    rewrite assess_from_nomatch; [reflexivity|].
    now apply (decayed_values_nomatch stim (TangentAgent.goals self)). }
  rewrite Hbm in Hcases. cbn [fst snd] in Hcases.
  destruct Hcases as [[_ Hrun]|(k & g & g' & Hk & _)]; [|discriminate].
  exists d', w'. do 2 eexists. split; [exact Heach|].
  split; [exact Hrun|]. cbn.
  repeat split. apply Rgtb_false. lra.
Qed.

Lemma perceive_without_match_witness :
  exists d' w' interp self'',
    let self := TangentAgent.mk
                  [("build"%string,
                    Goal.mk "build" None None (Some "constructive") 1.2 1.0 0)]
                  [] [] (RoleContext.__init__ []) in
    TangentAgent.decay_each (TangentAgent.goals self) (mkWorld INR 1)
      = inr (d', w')
    /\ TangentAgent.perceive self "We should go outside." (mkWorld INR 1)
       = inr ((interp, self''), w')
    /\ TangentAgent.stimulus interp = "We should go outside."%string
    /\ TangentAgent.best_goal interp = None
    /\ TangentAgent.relevance_score interp = 0
    /\ TangentAgent.aligned interp = false
    /\ TangentAgent.goals self'' = d'
    /\ TangentAgent.memory self'' = TangentAgent.memory self ++ [interp].
Proof.
  apply (perceive_without_match
           (TangentAgent.mk
              [("build"%string,
                Goal.mk "build" None None (Some "constructive") 1.2 1.0 0)]
              [] [] (RoleContext.__init__ []))
           "We should go outside." (mkWorld INR 1)).
  right. repeat constructor.
Defined.

Lemma keyed_get_name (d : dict Goal.t) k g :
  keyed_by_name d -> dict_get k d = Some g -> Goal.name g = k.
Proof.
  intros Hk Hget. apply dict_get_In in Hget.
  unfold keyed_by_name in Hk. rewrite List.Forall_forall in Hk.
  exact (Hk _ Hget).
Qed.

Lemma matches_by_name stim g1 g2 :
  Goal.name g1 = Goal.name g2 -> matches stim g1 = matches stim g2.
Proof. unfold matches. now intros ->. Qed.

(** C2: for every stimulus and every agent whose goal dictionary is keyed by
    the goals' names, [perceive] returns normally and either leaves the goals
    exactly as the decay pass left them, reading no further clock value, or
    calls [reinforce] once, on the goal stored under the best match; that
    goal's lowercased name occurs in the lowercased stimulus, its relevance
    exceeds 0.3 and no entry of the relevance map exceeds it. A goal whose
    name does not occur in the stimulus is therefore, after the call, exactly
    as the decay pass left it. *)
Theorem perceive_reinforces_only_a_match (self : TangentAgent.t)
    (stim : string) (w : World) :
  wf self ->
  exists d' w' interp self'' w'',
    TangentAgent.decay_each (TangentAgent.goals self) w = inr (d', w')
    /\ TangentAgent.perceive self stim w = inr ((interp, self''), w'')
    /\ ((TangentAgent.goals self'' = d' /\ w'' = w')
        \/ exists k g g',
             TangentAgent.best_goal interp = Some k
             /\ TangentAgent.relevance_score interp > 0.3
             /\ Forall (fun kv => snd kv <= TangentAgent.relevance_score interp)
                       (TangentAgent._assess_relevance
                          (TangentAgent.set_goals self d') stim)
             /\ dict_get k d' = Some g
             /\ matches stim g = true
             /\ Goal.reinforce g Goal.default_boost w' = inr (g', w'')
             /\ TangentAgent.goals self'' = dict_set k g' d')
    /\ (forall k g, dict_get k d' = Some g -> matches stim g = false ->
                    dict_get k (TangentAgent.goals self'') = Some g).
Proof.
  intros [Hkeyed Hnd].
  destruct (perceive_cases self stim w) as (d' & w' & Heach & Hid & Hcases).
  cbv zeta in Hcases.
  assert (Hkeyed' : keyed_by_name d') by (eapply same_identity_keyed; eauto).
  destruct Hcases as [[_ Hrun]|(k & g & g' & Hk & Hrel & Hget & Hre & Hrun)].
  - exists d', w'. do 2 eexists. exists w'. split; [exact Heach|].
    split; [exact Hrun|]. split; [left; now split|].
    intros k g Hget _. exact Hget.
  - destruct (best_match_spec
                (TangentAgent._assess_relevance
                   (TangentAgent.set_goals self d') stim))
      as [[_ Hbm]|(k0 & v & Hin & Hbm & Hmax)];
      [rewrite Hbm in Hk; discriminate|].
    rewrite Hbm in Hk, Hrel, Hrun. cbn [fst snd] in Hk, Hrel, Hrun.
    injection Hk as ->.
    apply reinforced_key_is_owned in Hin as (g0 & Hg0 & Hm0 & _);
      [|exact Hkeyed'].
    cbn [TangentAgent.goals TangentAgent.set_goals] in Hg0.
    assert (Hmg : matches stim g = true).
    { rewrite (matches_by_name stim g g0); [exact Hm0|].
      rewrite (keyed_get_name d' k g Hkeyed' Hget).
      unfold keyed_by_name in Hkeyed'. rewrite List.Forall_forall in Hkeyed'.
      symmetry. exact (Hkeyed' _ Hg0). }
    exists d', w'. do 2 eexists. exists (tick w'). split; [exact Heach|].
    split; [exact Hrun|]. split.
    + right. exists k, g, g'.
      cbn [TangentAgent.best_goal TangentAgent.relevance_score
           TangentAgent.goals TangentAgent.set_memory TangentAgent.set_goals].
      repeat split; assumption.
    + intros k1 g1 Hget1 Hm1.
      cbn [TangentAgent.goals TangentAgent.set_memory TangentAgent.set_goals].
      rewrite dict_get_set_ne; [exact Hget1|].
      intros ->. rewrite Hget in Hget1. injection Hget1 as ->. congruence.
Qed.

Lemma perceive_reinforces_only_a_match_witness :
  let self := TangentAgent.mk
                [("build"%string,
                  Goal.mk "build" None None (Some "constructive") 1.2 1.0 0);
                 ("eat"%string,
                  Goal.mk "eat" None None (Some "survival") 0.7 0.2 0)]
                [] [] (RoleContext.__init__ []) in
  exists d' w' interp self'' w'',
    TangentAgent.decay_each (TangentAgent.goals self) (mkWorld INR 1)
      = inr (d', w')
    /\ TangentAgent.perceive self "Let's build something" (mkWorld INR 1)
       = inr ((interp, self''), w'')
    /\ ((TangentAgent.goals self'' = d' /\ w'' = w')
        \/ exists k g g',
             TangentAgent.best_goal interp = Some k
             /\ TangentAgent.relevance_score interp > 0.3
             /\ Forall (fun kv => snd kv <= TangentAgent.relevance_score interp)
                       (TangentAgent._assess_relevance
                          (TangentAgent.set_goals self d')
                          "Let's build something")
             /\ dict_get k d' = Some g
             /\ matches "Let's build something" g = true
             /\ Goal.reinforce g Goal.default_boost w' = inr (g', w'')
             /\ TangentAgent.goals self'' = dict_set k g' d')
    /\ (forall k g, dict_get k d' = Some g ->
                    matches "Let's build something" g = false ->
                    dict_get k (TangentAgent.goals self'') = Some g).
Proof.
  intros self.
  apply (perceive_reinforces_only_a_match self "Let's build something"
           (mkWorld INR 1)).
  split.
  - repeat constructor.
  - repeat (apply NoDup_cons_2;
            [rewrite list_elem_of_In; simpl; intuition discriminate|]).
    apply NoDup_nil_2.
Defined.

Lemma build_occurs :
  str_in (lower "build") (lower "Let's build something") = true.
Proof. reflexivity. Qed.

(** C1: the goal "build" (trait "constructive", [trait_sigma] 1.2, initial
    score 1.0) is constructed, an agent is constructed from it with a role
    context whose skew for "constructive" is 1.2, and
    [perceive("Let's build something")] is called while the clock still shows
    the instant of the goal's construction. The interpretation names "build",
    its relevance is [1.0 * 1.2 * 1.2 = 1.44], it is aligned, and the goal's
    score is afterwards [1.0 + 0.5 * 1.2 = 1.6]. *)
Theorem build_scenario (rc : RoleContext.t) (w : World) :
  RoleContext.skew_for rc (Some "constructive"%string) = 1.2 ->
  now (tick w) = now w ->
  exists interp self' w' g',
    (g ← Goal.__init__ "build" None None (Some "constructive"%string) 1.2 1.0;
     self ← TangentAgent.__init__ [g] (Some rc);
     TangentAgent.perceive self "Let's build something") w
    = inr ((interp, self'), w')
    /\ TangentAgent.best_goal interp = Some "build"%string
    /\ TangentAgent.relevance_score interp = 1.0 * 1.2 * 1.2
    /\ TangentAgent.relevance_score interp = 1.44
    /\ TangentAgent.aligned interp = true
    /\ dict_get "build" (TangentAgent.goals self') = Some g'
    /\ Goal.score g' = 1.0 + 0.5 * 1.2
    /\ Goal.score g' = 1.6.
Proof.
  intros Hskew Hzero.
  set (g0 := Goal.mk "build" None None (Some "constructive"%string) 1.2 1.0 (now w)).
  set (self0 := TangentAgent.mk [("build"%string, g0)] [] [] rc).
  assert (Hg : Goal.__init__ "build" None None (Some "constructive"%string)
                 1.2 1.0 w = inr (g0, tick w)) by reflexivity.
  assert (Hself : TangentAgent.__init__ [g0] (Some rc) (tick w)
                  = inr (self0, tick w)) by reflexivity.
  rewrite (bind_inr _ _ _ _ _ Hg), (bind_inr _ _ _ _ _ Hself).
  destruct (perceive_cases self0 "Let's build something" (tick w))
    as (d' & w' & Heach & _ & Hcases).
  cbv zeta in Hcases.
  set (g1 := Goal.mk "build" None None (Some "constructive"%string) 1.2
               (1.0 * exp (- Goal.default_rate * (now (tick w) - now w)))
               (now (tick (tick w)))).
  assert (Heach' : TangentAgent.decay_each (TangentAgent.goals self0) (tick w)
                   = inr ([("build"%string, g1)], tick (tick (tick w))))
    by reflexivity.
  rewrite Heach' in Heach. injection Heach as <- <-.
  assert (Hscore1 : Goal.score g1 = 1.0).
  { cbn [Goal.score g1]. rewrite Hzero.
    replace (- Goal.default_rate * (now w - now w)) with 0 by lra.
    rewrite exp_0. lra. }
  assert (Hmap : TangentAgent._assess_relevance
                   (TangentAgent.set_goals self0 [("build"%string, g1)])
                   "Let's build something"
                 = [("build"%string, priority self0 g1)]).
  { rewrite assess_eq.
    cbn [TangentAgent.goals TangentAgent.set_goals dict_values map snd].
    rewrite assess_from_cons. cbn [Goal.name g1]. rewrite build_occurs.
    reflexivity. }
  assert (Hprio : priority self0 g1 = 1.44).
  { unfold priority, Goal.weighted_score.
    cbn [TangentAgent.role_context self0 Goal.trait Goal.trait_sigma g1].
    rewrite Hskew, Hscore1. lra. }
  rewrite Hmap in Hcases.
  change (TangentAgent.best_match_of [("build"%string, priority self0 g1)])
    with (Some "build"%string, priority self0 g1) in Hcases.
  cbn [fst snd] in Hcases. rewrite Hprio in Hcases.
  assert (Hsigma1 : Goal.trait_sigma g1 = 1.2) by reflexivity.
  clearbody g1.
  destruct Hcases as [[Hcond _]|(k & g & g' & Hk & _ & Hget & Hre & Hrun)].
  - exfalso. apply andb_false_iff in Hcond as [Hcond|Hcond].
    + apply Rgtb_false in Hcond. lra.
    + cbn in Hcond. discriminate.
  - injection Hk as <-. cbn in Hget. injection Hget as <-.
    rewrite reinforce_eq in Hre. injection Hre as <-.
    do 4 eexists. split; [exact Hrun|].
    cbn [TangentAgent.best_goal TangentAgent.relevance_score
         TangentAgent.aligned TangentAgent.goals TangentAgent.set_memory
         TangentAgent.set_goals].
    split; [reflexivity|]. split; [lra|]. split; [reflexivity|].
    split; [apply Rgtb_true; lra|].
    split; [apply dict_get_set_eq|].
    cbn [Goal.score]. rewrite Hscore1, Hsigma1.
    unfold Goal.default_boost. split; lra.
Qed.

Lemma build_scenario_witness :
  exists interp self' w' g',
    (g ← Goal.__init__ "build" None None (Some "constructive"%string) 1.2 1.0;
     self ← TangentAgent.__init__ [g]
              (Some (RoleContext.__init__
                       [ {[ "constructive"%string := 1.2 ]} ]));
     TangentAgent.perceive self "Let's build something")
      (mkWorld (fun n => INR (n - 1)) 0)
    = inr ((interp, self'), w')
    /\ TangentAgent.best_goal interp = Some "build"%string
    /\ TangentAgent.relevance_score interp = 1.0 * 1.2 * 1.2
    /\ TangentAgent.relevance_score interp = 1.44
    /\ TangentAgent.aligned interp = true
    /\ dict_get "build" (TangentAgent.goals self') = Some g'
    /\ Goal.score g' = 1.0 + 0.5 * 1.2
    /\ Goal.score g' = 1.6.
Proof.
  apply (build_scenario
           (RoleContext.__init__ [ {[ "constructive"%string := 1.2 ]} ])
           (mkWorld (fun n => INR (n - 1)) 0)).
  - unfold RoleContext.skew_for, RoleContext.__init__, RoleContext.role_get.
    cbn [RoleContext.layered_role_skews fold_left].
    rewrite lookup_singleton_eq. simpl. lra.
  - reflexivity.
Defined.

Lemma same_identity_get d d' k g :
  Forall2 same_identity d d' -> dict_get k d = Some g ->
  exists g', dict_get k d' = Some g' /\ Goal.name g' = Goal.name g.
Proof.
  induction 1 as [|[k1 g1] [k1' g1'] d d' Hid Hrest IH]; simpl;
    [discriminate|].
  destruct Hid as (Hfst & Hname & _). simpl in Hfst, Hname. subst k1'.
  destruct (String.eqb_spec k k1) as [->|Hne].
  - intros [= ->]. now exists g1'.
  - exact IH.
Qed.

Lemma best_match_owned self stim k v :
  keyed_by_name (TangentAgent.goals self) ->
  TangentAgent.best_match_of (TangentAgent._assess_relevance self stim)
  = (Some k, v) ->
  (exists g, In (k, g) (TangentAgent.goals self)
             /\ matches stim g = true /\ v = priority self g)
  /\ Forall (fun kv => snd kv <= v) (TangentAgent._assess_relevance self stim).
Proof.
  intros Hkeyed Hbm.
  destruct (best_match_spec (TangentAgent._assess_relevance self stim))
    as [[_ Hnone]|(k0 & v0 & Hin & Hsome & Hmax)]; [congruence|].
  rewrite Hsome in Hbm. injection Hbm as -> ->.
  split; [|exact Hmax]. now apply reinforced_key_is_owned.
Qed.

(** C10: an agent (its goal dictionary keyed by the goals' names, no key
    twice) owns a goal whose name is the empty string. For every stimulus the
    relevance map has an entry for that goal, holding its weighted score.
    When that score exceeds 0.3 the interpretation is aligned and a goal is
    reinforced; when in addition it exceeds the weighted score of every other
    goal whose name occurs in the stimulus, the empty-named goal is the best
    match and is the goal reinforced. *)
Theorem empty_name_matches_every_stimulus (self : TangentAgent.t)
    (stim : string) (w : World) (g : Goal.t) :
  wf self ->
  dict_get "" (TangentAgent.goals self) = Some g ->
  exists d' w' g' interp self'' w'',
    TangentAgent.decay_each (TangentAgent.goals self) w = inr (d', w')
    /\ dict_get "" d' = Some g'
    /\ matches stim g' = true
    /\ dict_get "" (TangentAgent._assess_relevance
                      (TangentAgent.set_goals self d') stim)
       = Some (priority self g')
    /\ TangentAgent.perceive self stim w = inr ((interp, self''), w'')
    /\ (priority self g' > 0.3 ->
        TangentAgent.aligned interp = true
        /\ exists k gk gk',
             TangentAgent.best_goal interp = Some k
             /\ dict_get k d' = Some gk
             /\ Goal.reinforce gk Goal.default_boost w' = inr (gk', w'')
             /\ TangentAgent.goals self'' = dict_set k gk' d')
    /\ (priority self g' > 0.3 ->
        (forall k g2, k <> ""%string -> dict_get k d' = Some g2 ->
                      matches stim g2 = true ->
                      priority self g2 < priority self g') ->
        TangentAgent.best_goal interp = Some ""%string
        /\ TangentAgent.relevance_score interp = priority self g'
        /\ exists g'',
             Goal.reinforce g' Goal.default_boost w' = inr (g'', w'')
             /\ TangentAgent.goals self'' = dict_set "" g'' d').
Proof.
  intros [Hkeyed Hnd] Hget.
  destruct (perceive_cases self stim w) as (d' & w' & Heach & Hid & Hcases).
  cbv zeta in Hcases.
  assert (Hkeyed' : keyed_by_name d') by (eapply same_identity_keyed; eauto).
  assert (Hnd' : NoDup (dict_keys d'))
    by (now rewrite (same_identity_keys _ _ Hid)).
  destruct (same_identity_get _ _ _ _ Hid Hget) as (g' & Hget' & Hname').
  assert (Hm' : matches stim g' = true).
  { unfold matches. rewrite (keyed_get_name d' "" g' Hkeyed' Hget').
    apply str_in_empty. }
  set (self' := TangentAgent.set_goals self d') in *.
  assert (Hentry : dict_get "" (TangentAgent._assess_relevance self' stim)
                   = Some (priority self g')).
  { rewrite assess_eq. now apply assess_from_get. }
  destruct (TangentAgent.best_match_of
              (TangentAgent._assess_relevance self' stim))
    as [bk bv] eqn:Hbm.
  cbn [fst snd] in Hcases.
  assert (Hbest : priority self g' > 0.3 ->
                  bv > 0.3 /\ priority self g' <= bv
                  /\ exists k, bk = Some k /\ dict_in bk d' = true).
  { intros Hp.
    destruct (best_match_spec (TangentAgent._assess_relevance self' stim))
      as [[Hnil _]|(k0 & v0 & Hin0 & Hsome & Hmax)].
    - rewrite Hnil in Hentry. discriminate.
    - rewrite Hsome in Hbm. injection Hbm as <- <-.
      rewrite List.Forall_forall in Hmax.
      specialize (Hmax _ (dict_get_In _ _ _ Hentry)). cbn [snd] in Hmax.
      split; [lra|]. split; [exact Hmax|]. exists k0. split; [reflexivity|].
      apply reinforced_key_is_owned in Hin0 as (g0 & Hg0 & _);
        [|exact Hkeyed'].
      cbn [dict_in]. apply bool_decide_eq_true. exact (In_dict_get _ _ _ Hg0). }
  exists d', w', g'.
  destruct Hcases as [[Hcond Hrun]|(k & gk & gk' & Hk & Hrel & Hgk & Hre & Hrun)].
  - do 2 eexists. exists w'. split; [exact Heach|]. split; [exact Hget'|].
    split; [exact Hm'|]. split; [exact Hentry|]. split; [exact Hrun|].
    split; intros Hp; destruct (Hbest Hp) as (Hbv & _ & k & _ & Hin);
      exfalso; apply andb_false_iff in Hcond as [Hcond|Hcond];
      try (apply Rgtb_false in Hcond; lra); congruence.
  - subst bk. do 2 eexists. exists (tick w'). split; [exact Heach|].
    split; [exact Hget'|]. split; [exact Hm'|]. split; [exact Hentry|].
    split; [exact Hrun|].
    cbn [TangentAgent.best_goal TangentAgent.relevance_score
         TangentAgent.aligned TangentAgent.goals TangentAgent.set_memory
         TangentAgent.set_goals].
    split.
    + intros Hp. split; [now apply Rgtb_true|].
      exists k, gk, gk'. repeat split; assumption.
    + intros Hp Hstrict. destruct (Hbest Hp) as (_ & Hle & _).
      destruct (best_match_owned self' stim k bv Hkeyed' Hbm)
        as ((g0 & Hg0 & Hm0 & Hv0) & _).
      apply (dict_In_get _ _ _ Hnd') in Hg0.
      destruct (String.eqb_spec k "") as [->|Hne].
      * rewrite Hgk in Hget'. injection Hget' as ->.
        rewrite Hg0 in Hgk. injection Hgk as ->.
        split; [reflexivity|]. split; [exact Hv0|].
        exists gk'. split; [exact Hre|reflexivity].
      * exfalso. specialize (Hstrict k g0 Hne Hg0 Hm0).
        change (priority self' g0) with (priority self g0) in Hv0. lra.
Qed.

Lemma empty_name_matches_every_stimulus_witness :
  let g := Goal.mk "" None None None 1.0 1.0 0 in
  let self := TangentAgent.mk
                [(""%string, g);
                 ("build"%string,
                  Goal.mk "build" None None (Some "constructive") 1.2 1.0 0)]
                [] [] (RoleContext.__init__ []) in
  let stim := "We should go outside."%string in
  let w := mkWorld INR 1 in
  exists d' w' g' interp self'' w'',
    TangentAgent.decay_each (TangentAgent.goals self) w = inr (d', w')
    /\ dict_get "" d' = Some g'
    /\ matches stim g' = true
    /\ dict_get "" (TangentAgent._assess_relevance
                      (TangentAgent.set_goals self d') stim)
       = Some (priority self g')
    /\ TangentAgent.perceive self stim w = inr ((interp, self''), w'')
    /\ (priority self g' > 0.3 ->
        TangentAgent.aligned interp = true
        /\ exists k gk gk',
             TangentAgent.best_goal interp = Some k
             /\ dict_get k d' = Some gk
             /\ Goal.reinforce gk Goal.default_boost w' = inr (gk', w'')
             /\ TangentAgent.goals self'' = dict_set k gk' d')
    /\ (priority self g' > 0.3 ->
        (forall k g2, k <> ""%string -> dict_get k d' = Some g2 ->
                      matches stim g2 = true ->
                      priority self g2 < priority self g') ->
        TangentAgent.best_goal interp = Some ""%string
        /\ TangentAgent.relevance_score interp = priority self g'
        /\ exists g'',
             Goal.reinforce g' Goal.default_boost w' = inr (g'', w'')
             /\ TangentAgent.goals self'' = dict_set "" g'' d').
Proof.
  intros g self stim w.
  apply (empty_name_matches_every_stimulus self stim w g).
  - split.
    + repeat constructor.
    + repeat (apply NoDup_cons_2;
              [rewrite list_elem_of_In; simpl; intuition discriminate|]).
      apply NoDup_nil_2.
  - reflexivity.
Defined.

(** [perceive] keeps the goal dictionary keyed by name and free of repeated
    keys, so every agent reached from a constructed one satisfies [wf]. *)
Lemma perceive_preserves_wf self stim w :
  wf self ->
  exists interp self'' w'',
    TangentAgent.perceive self stim w = inr ((interp, self''), w'')
    /\ wf self''
    /\ dict_keys (TangentAgent.goals self'')
       = dict_keys (TangentAgent.goals self).
Proof.
  intros [Hkeyed Hnd].
  destruct (perceive_cases self stim w) as (d' & w' & Heach & Hid & Hcases).
  cbv zeta in Hcases.
  assert (Hkeyed' : keyed_by_name d') by (eapply same_identity_keyed; eauto).
  assert (Hkeys : dict_keys d' = dict_keys (TangentAgent.goals self))
    by (now apply same_identity_keys).
  destruct Hcases as [[_ Hrun]|(k & g & g' & _ & _ & Hget & Hre & Hrun)].
  - do 3 eexists. split; [exact Hrun|]. unfold wf.
    cbn [TangentAgent.goals TangentAgent.set_memory TangentAgent.set_goals].
    split; [|exact Hkeys].
    split; [exact Hkeyed'|]. now rewrite Hkeys.
  - do 3 eexists. split; [exact Hrun|]. unfold wf.
    cbn [TangentAgent.goals TangentAgent.set_memory TangentAgent.set_goals].
    rewrite reinforce_eq in Hre. injection Hre as <-.
    assert (Hname : Goal.name g = k) by (eapply keyed_get_name; eauto).
    split; [split|].
    + rewrite <- Hname at 1.
      apply (keyed_by_name_set (Goal.mk (Goal.name g) _ _ _ _ _ _)).
      exact Hkeyed'.
    + apply dict_keys_set_NoDup. now rewrite Hkeys.
    + rewrite dict_keys_set_present; [exact Hkeys|]. now exists g.
Qed.

(** The mapping built from two goals of one name holds the second only. *)
Example duplicate_names_collapse :
  let g1 := Goal.mk "build" None None (Some "constructive") 1.2 1.0 0 in
  let g2 := Goal.mk "build" None None (Some "analytical") 1.4 2.0 0 in
  TangentAgent.goals_by_name [g1; g2] = [("build"%string, g2)].
Proof. reflexivity. Qed.

(** * Further properties of the code *)

(** ** Goal *)

Lemma exp_nonpos_le_1 x : x <= 0 -> exp x <= 1.
Proof.
  intros [Hlt| ->]; [|rewrite exp_0; lra].
  left. rewrite <- exp_0. now apply exp_increasing.
Qed.

(** X1: a [decay] call made at the very instant of the goal's last update
    leaves the score as it was, whatever the rate; [last_updated] becomes the
    second clock reading of the call. *)
Theorem decay_zero_elapsed (g : Goal.t) (rate : R) (w : World) :
  now w = Goal.last_updated g ->
  exists g',
    Goal.decay g rate w = inr (g', tick (tick w))
    /\ Goal.score g' = Goal.score g
    /\ Goal.last_updated g' = now (tick w).
Proof.
  intros Hnow. eexists. rewrite decay_eq. split; [reflexivity|].
  cbn [Goal.score Goal.last_updated]. split; [|reflexivity].
  rewrite Hnow.
  replace (- rate * (Goal.last_updated g - Goal.last_updated g)) with 0 by lra.
  rewrite exp_0. lra.
Qed.

Lemma decay_zero_elapsed_witness :
  exists g',
    Goal.decay (Goal.mk "eat" None None (Some "survival") 0.7 0.2 3) 0.01
               (mkWorld INR 3) = inr (g', tick (tick (mkWorld INR 3)))
    /\ Goal.score g' = 0.2
    /\ Goal.last_updated g' = now (tick (mkWorld INR 3)).
Proof.
  apply (decay_zero_elapsed
           (Goal.mk "eat" None None (Some "survival") 0.7 0.2 3) 0.01
           (mkWorld INR 3)).
  unfold now. simpl. lra.
Defined.

Lemma decay_score_bounds (g : Goal.t) (rate : R) (w : World) :
  0 <= rate ->
  Goal.last_updated g <= now w ->
  0 <= Goal.score g ->
  0 <= Goal.score g * exp (- rate * (now w - Goal.last_updated g))
    <= Goal.score g.
Proof.
  intros Hrate Hclock Hscore.
  set (x := - rate * (now w - Goal.last_updated g)).
  assert (Hpos : 0 < exp x) by apply exp_pos.
  assert (Hx : x <= 0) by (unfold x; nra).
  assert (Hle : exp x <= 1) by now apply exp_nonpos_le_1.
  nra.
Qed.

(** X2: with a non-negative rate, a clock that has not run backwards since
    the last update, and a non-negative score, [decay] returns normally and
    leaves a score between 0 and the old score: it never raises a score and
    never makes one negative. *)
Theorem decay_never_raises_score (g : Goal.t) (rate : R) (w : World) :
  0 <= rate ->
  Goal.last_updated g <= now w ->
  0 <= Goal.score g ->
  exists g',
    Goal.decay g rate w = inr (g', tick (tick w))
    /\ 0 <= Goal.score g' <= Goal.score g
    /\ Goal.trait_sigma g' = Goal.trait_sigma g.
Proof.
  intros Hrate Hclock Hscore. eexists. rewrite decay_eq.
  split; [reflexivity|]. cbn [Goal.score Goal.trait_sigma].
  split; [|reflexivity].
  set (x := - rate * (now w - Goal.last_updated g)).
  assert (Hpos : 0 < exp x) by apply exp_pos.
  assert (Hx : x <= 0) by (unfold x; nra).
  assert (Hle : exp x <= 1) by now apply exp_nonpos_le_1.
  nra.
Qed.

Lemma decay_never_raises_score_witness :
  exists g',
    Goal.decay (Goal.mk "eat" None None (Some "survival") 0.7 0.2 0) 0.01
               (mkWorld INR 3) = inr (g', tick (tick (mkWorld INR 3)))
    /\ 0 <= Goal.score g' <= 0.2
    /\ Goal.trait_sigma g' = 0.7.
Proof.
  apply (decay_never_raises_score
           (Goal.mk "eat" None None (Some "survival") 0.7 0.2 0) 0.01
           (mkWorld INR 3)); unfold now; simpl; lra.
Defined.

(** X3: a goal with no trait, a call without a role context, and a role
    context with no profiles all give the unskewed weighted score,
    [score * trait_sigma]. *)
Theorem weighted_score_unskewed (g : Goal.t) (rc : option RoleContext.t) :
  rc = None \/ Goal.trait g = None \/ rc = Some (RoleContext.__init__ []) ->
  Goal.weighted_score g rc = Goal.score g * Goal.trait_sigma g.
Proof.
  unfold Goal.weighted_score.
  intros [->|[Htrait| ->]].
  - lra.
  - destruct rc as [rc|]; [|lra]. rewrite Htrait, skew_for_unset_trait. lra.
  - unfold RoleContext.skew_for, RoleContext.__init__. simpl. lra.
Qed.

Lemma weighted_score_unskewed_witness :
  Goal.weighted_score
    (Goal.mk "rest" None None None 0.7 0.2 0)
    (Some (RoleContext.__init__ [ {[ "survival"%string := 2 ]} ]))
  = 0.2 * 0.7.
Proof.
  apply (weighted_score_unskewed
           (Goal.mk "rest" None None None 0.7 0.2 0)
           (Some (RoleContext.__init__ [ {[ "survival"%string := 2 ]} ]))).
  right. left. reflexivity.
Defined.

(** ** Matching a goal name against a stimulus *)

Lemma prefix_append kw text :
  String.prefix kw text = true <-> exists post, text = kw +:+ post.
Proof.
  revert text. induction kw as [|c kw IH]; intros text.
  - split; [intros _; now exists text|]. intros _. now destruct text.
  - destruct text as [|c' text]; simpl.
    + split; [discriminate|]. intros [post H]. discriminate.
    + destruct (ascii_dec c c') as [->|Hne].
      * rewrite IH. split; intros [post H]; exists post.
        -- now rewrite H.
        -- now injection H.
      * split; [discriminate|]. intros [post H]. injection H as Hc _.
        congruence.
Qed.

Lemma str_in_step kw c rest :
  str_in kw (String c rest) = String.prefix kw (String c rest) || str_in kw rest.
Proof. reflexivity. Qed.

Lemma str_in_substring kw text :
  str_in kw text = true <-> exists pre post, text = pre +:+ kw +:+ post.
Proof.
  split.
  - induction text as [|c rest IH].
    + cbn [str_in]. rewrite orb_false_r. intros H.
      apply prefix_append in H as [post H]. now exists ""%string, post.
    + rewrite str_in_step. intros H. apply orb_true_iff in H as [H|H].
      * apply prefix_append in H as [post H]. now exists ""%string, post.
      * destruct (IH H) as (pre & post & Hrest).
        exists (String c pre), post. simpl. now rewrite Hrest.
  - intros (pre & post & ->). induction pre as [|c pre IH].
    + assert (H : String.prefix kw (kw +:+ post) = true)
        by (apply prefix_append; now exists post).
      change ("" +:+ kw +:+ post)%string with (kw +:+ post).
      destruct (kw +:+ post) as [|c rest]; simpl in *; rewrite H; reflexivity.
    + change (String c pre +:+ kw +:+ post)%string
        with (String c (pre +:+ kw +:+ post)).
      rewrite str_in_step, IH. apply orb_true_r.
Qed.

Lemma lower_ascii_idem c : lower_ascii (lower_ascii c) = lower_ascii c.
Proof.
  destruct c as [[] [] [] [] [] [] [] []]; reflexivity.
Qed.

Lemma lower_idem s : lower (lower s) = lower s.
Proof.
  induction s as [|c s IH]; simpl; [reflexivity|].
  now rewrite lower_ascii_idem, IH.
Qed.

(** ** [perceive]: what it keeps *)

Lemma same_identity_refl d : Forall2 same_identity d d.
Proof. induction d; constructor; [now repeat split|assumption]. Qed.

Lemma same_identity_trans d1 d2 d3 :
  Forall2 same_identity d1 d2 -> Forall2 same_identity d2 d3 ->
  Forall2 same_identity d1 d3.
Proof.
  intros H12. revert d3. induction H12 as [|x y d1 d2 Hxy _ IH]; intros d3 H23;
    inversion H23 as [|? z ? d3' Hyz Hrest]; subst; constructor.
  - destruct Hxy as (? & ? & ? & ?), Hyz as (? & ? & ? & ?).
    repeat split; congruence.
  - now apply IH.
Qed.

Lemma same_identity_set (d : dict Goal.t) k g g' :
  dict_get k d = Some g ->
  same_identity (k, g) (k, g') ->
  Forall2 same_identity d (dict_set k g' d).
Proof.
  intros Hget Hid. induction d as [|[k1 g1] rest IH]; simpl in *;
    [discriminate|].
  destruct (String.eqb_spec k k1) as [->|Hne].
  - injection Hget as ->. constructor; [exact Hid|apply same_identity_refl].
  - constructor; [now repeat split|now apply IH].
Qed.

Lemma decay_each_ticks d w d' w' :
  TangentAgent.decay_each d w = inr (d', w') ->
  w' = mkWorld (readings w) (ticks w + 2 * length d).
Proof.
  revert w d' w'. induction d as [|[k g] rest IH]; intros w d' w' Hrun.
  - injection Hrun as <- <-. destruct w. simpl. f_equal. lia.
  - cbn [TangentAgent.decay_each] in Hrun.
    rewrite (bind_inr _ _ _ _ _ (decay_eq g Goal.default_rate w)) in Hrun.
    destruct (decay_each_spec rest (tick (tick w))) as (r' & w1 & Hrest & _).
    rewrite (bind_inr _ _ _ _ _ Hrest) in Hrun. injection Hrun as <- <-.
    rewrite (IH _ _ _ Hrest). simpl. f_equal. lia.
Qed.

(** What every [perceive] call returns and keeps. *)
Lemma perceive_summary (self : TangentAgent.t) (stim : string) (w : World) :
  exists interp self'' w'',
    TangentAgent.perceive self stim w = inr ((interp, self''), w'')
    /\ TangentAgent.stimulus interp = stim
    /\ TangentAgent.memory self'' = TangentAgent.memory self ++ [interp]
    /\ TangentAgent.role_context self'' = TangentAgent.role_context self
    /\ TangentAgent.state self'' = TangentAgent.state self
    /\ readings w'' = readings w
    /\ (ticks w'' = ticks w + 2 * length (TangentAgent.goals self)
        \/ ticks w'' = S (ticks w + 2 * length (TangentAgent.goals self)))%nat
    /\ dict_keys (TangentAgent.goals self'')
       = dict_keys (TangentAgent.goals self)
    /\ Forall2 same_identity (TangentAgent.goals self)
                             (TangentAgent.goals self'').
Proof.
  destruct (perceive_cases self stim w) as (d' & w' & Heach & Hid & Hcases).
  cbv zeta in Hcases. apply decay_each_ticks in Heach. subst w'.
  destruct Hcases as [[_ Hrun]|(k & g & g' & _ & _ & Hget & Hre & Hrun)];
    do 3 eexists; (split; [exact Hrun|]);
    cbn [TangentAgent.goals TangentAgent.set_memory TangentAgent.set_goals
         TangentAgent.stimulus TangentAgent.memory TangentAgent.role_context
         TangentAgent.state readings ticks tick];
    (do 4 (split; [reflexivity|])).
  - split; [reflexivity|]. split; [now left|].
    split; [now apply same_identity_keys|exact Hid].
  - split; [reflexivity|]. split; [now right|].
    rewrite reinforce_eq in Hre. injection Hre as <-.
    assert (Hid' : Forall2 same_identity d' (dict_set k
              (Goal.mk (Goal.name g) (Goal.category g) (Goal.subcategory g)
                 (Goal.trait g) (Goal.trait_sigma g)
                 (Goal.score g + Goal.default_boost * Goal.trait_sigma g)
                 (now (mkWorld (readings w)
                         (ticks w + 2 * length (TangentAgent.goals self)))))
              d')).
    { apply (same_identity_set d' k g); [exact Hget|now repeat split]. }
    split.
    + rewrite dict_keys_set_present by (now exists g).
      now apply same_identity_keys.
    + eapply same_identity_trans; eassumption.
Qed.

Lemma forward_clock_readings w w' :
  readings w' = readings w -> forward_clock w -> forward_clock w'.
Proof. unfold forward_clock. now intros ->. Qed.

Lemma decay_each_stamped d w d' w' :
  TangentAgent.decay_each d w = inr (d', w') ->
  Forall (fun kg => exists n, (n < ticks w')%nat
                              /\ Goal.last_updated (snd kg) = readings w n) d'.
Proof.
  revert w d' w'. induction d as [|[k g] rest IH]; intros w d' w' Hrun.
  - injection Hrun as <- _. constructor.
  - pose proof (decay_each_ticks _ _ _ _ Hrun) as Hw'.
    cbn [TangentAgent.decay_each] in Hrun.
    rewrite (bind_inr _ _ _ _ _ (decay_eq g Goal.default_rate w)) in Hrun.
    destruct (decay_each_spec rest (tick (tick w))) as (r' & w1 & Hrest & _).
    rewrite (bind_inr _ _ _ _ _ Hrest) in Hrun. injection Hrun as <- <-.
    constructor; [|exact (IH _ _ _ Hrest)].
    exists (S (ticks w)). split; [|reflexivity].
    rewrite Hw'. cbn [ticks length]. lia.
Qed.

Lemma decay_each_stamps d w d' w' :
  forward_clock w ->
  TangentAgent.decay_each d w = inr (d', w') ->
  stamps_not_ahead d' w'.
Proof.
  intros Hfw Hrun. pose proof (decay_each_ticks _ _ _ _ Hrun) as Hw'.
  apply decay_each_stamped in Hrun. unfold stamps_not_ahead.
  eapply List.Forall_impl; [|exact Hrun].
  intros kg (n & Hn & ->). unfold now. rewrite Hw' in *. cbn [readings ticks] in *.
  apply Hfw. lia.
Qed.

Lemma stamps_dict_set (d : dict Goal.t) w k g :
  stamps_not_ahead d w -> Goal.last_updated g <= now w ->
  stamps_not_ahead (dict_set k g d) w.
Proof.
  unfold stamps_not_ahead. intros Hd Hg.
  induction Hd as [|[k1 g1] rest H1 Hrest IH]; simpl.
  - constructor; [exact Hg|constructor].
  - destruct (String.eqb k k1); constructor; assumption.
Qed.

Lemma stamps_later (d : dict Goal.t) w :
  forward_clock w -> stamps_not_ahead d w -> stamps_not_ahead d (tick w).
Proof.
  unfold stamps_not_ahead. intros Hfw Hd.
  eapply List.Forall_impl; [|exact Hd]. intros kg Hkg.
  eapply Rle_trans; [exact Hkg|]. unfold now, tick. cbn [readings ticks].
  apply Hfw. lia.
Qed.

(** On a clock that does not run backwards, no goal is left with a stamp
    ahead of the clock. *)
Lemma perceive_stamps self stim w interp self'' w'' :
  forward_clock w ->
  TangentAgent.perceive self stim w = inr ((interp, self''), w'') ->
  stamps_not_ahead (TangentAgent.goals self'') w''.
Proof.
  intros Hfw Hrun.
  destruct (perceive_cases self stim w) as (d' & w' & Heach & _ & Hcases).
  cbv zeta in Hcases.
  pose proof (decay_each_stamps _ _ _ _ Hfw Heach) as Hstamps.
  assert (Hfw' : forward_clock w').
  { apply (forward_clock_readings w); [|exact Hfw].
    now rewrite (decay_each_ticks _ _ _ _ Heach). }
  destruct Hcases as [[_ Hrun']|(k & g & g' & _ & _ & _ & Hre & Hrun')];
    rewrite Hrun' in Hrun; injection Hrun as _ <- <-;
    cbn [TangentAgent.goals TangentAgent.set_memory TangentAgent.set_goals].
  - exact Hstamps.
  - rewrite reinforce_eq in Hre. injection Hre as <-.
    apply stamps_dict_set; [now apply stamps_later|].
    cbn [Goal.last_updated]. unfold now, tick. cbn [readings ticks].
    apply Hfw'. lia.
Qed.

(** X7: on a clock that does not run backwards, with no goal stamped ahead
    of it, [perceive] returns normally: every decay inside it sees a
    non-negative elapsed time, so [math.exp] stays in range, and the guarded
    subscript [self.goals[best]] finds its key. The call returns an
    interpretation of the stimulus it was given and appends exactly that
    record to the history, leaving the earlier records, the role context and
    the free-form state alone. It reads the clock twice per owned goal, and
    once more when it reinforces, and again leaves no goal stamped ahead of
    the clock. *)
Theorem perceive_returns_on_forward_clock (self : TangentAgent.t)
    (stim : string) (w : World) :
  forward_clock w ->
  stamps_not_ahead (TangentAgent.goals self) w ->
  exists interp self'' w'',
    TangentAgent.perceive self stim w = inr ((interp, self''), w'')
    /\ TangentAgent.stimulus interp = stim
    /\ TangentAgent.memory self'' = TangentAgent.memory self ++ [interp]
    /\ TangentAgent.role_context self'' = TangentAgent.role_context self
    /\ TangentAgent.state self'' = TangentAgent.state self
    /\ readings w'' = readings w
    /\ (ticks w'' = ticks w + 2 * length (TangentAgent.goals self)
        \/ ticks w'' = S (ticks w + 2 * length (TangentAgent.goals self)))%nat
    /\ stamps_not_ahead (TangentAgent.goals self'') w''.
Proof.
  intros Hfw _.
  destruct (perceive_summary self stim w)
    as (interp & self'' & w'' & Hrun & Hs & Hm & Hrc & Hst & Hr & Ht & _).
  exists interp, self'', w''.
  pose proof (perceive_stamps _ _ _ _ _ _ Hfw Hrun) as Hstamps.
  repeat split; assumption.
Qed.

Lemma perceive_returns_on_forward_clock_witness :
  let self := TangentAgent.mk
                [("build"%string,
                  Goal.mk "build" None None (Some "constructive") 1.2 1.0 0)]
                [] [] (RoleContext.__init__ []) in
  let w := mkWorld INR 1 in
  exists interp self'' w'',
    TangentAgent.perceive self "Let's build something" w
      = inr ((interp, self''), w'')
    /\ TangentAgent.stimulus interp = "Let's build something"%string
    /\ TangentAgent.memory self'' = TangentAgent.memory self ++ [interp]
    /\ TangentAgent.role_context self'' = TangentAgent.role_context self
    /\ TangentAgent.state self'' = TangentAgent.state self
    /\ readings w'' = readings w
    /\ (ticks w'' = ticks w + 2 * length (TangentAgent.goals self)
        \/ ticks w'' = S (ticks w + 2 * length (TangentAgent.goals self)))%nat
    /\ stamps_not_ahead (TangentAgent.goals self'') w''.
Proof.
  intros self w.
  apply (perceive_returns_on_forward_clock self "Let's build something" w).
  - intros m n Hmn. simpl. now apply le_INR.
  - repeat constructor. unfold now. simpl. lra.
Defined.

(** X8: [perceive] neither adds, removes, reorders nor renames goals: the
    goal dictionary has afterwards the same keys in the same order, and under
    each key a goal of the same name, trait and [trait_sigma]; only scores
    and timestamps move. *)
Theorem perceive_keeps_goal_identities (self : TangentAgent.t) (stim : string)
    (w : World) :
  exists interp self'' w'',
    TangentAgent.perceive self stim w = inr ((interp, self''), w'')
    /\ dict_keys (TangentAgent.goals self'')
       = dict_keys (TangentAgent.goals self)
    /\ Forall2 same_identity (TangentAgent.goals self)
                             (TangentAgent.goals self'').
Proof.
  destruct (perceive_summary self stim w)
    as (interp & self'' & w'' & Hrun & _ & _ & _ & _ & _ & _ & Hkeys & Hid).
  exists interp, self'', w''. repeat split; assumption.
Qed.

(** ** [act] *)

(** X9: [act] returns the waiting message exactly when the history is
    empty: an agent just constructed waits, and after any recorded
    interpretation [act] answers with one of the two other messages. *)
Theorem act_waits_iff_no_history (self : TangentAgent.t) :
  TangentAgent.act self = "Waiting for stimuli..."%string
  <-> TangentAgent.memory self = [].
Proof.
  unfold TangentAgent.act.
  destruct (last (TangentAgent.memory self)) as [latest|] eqn:Hlast.
  - split.
    + destruct (TangentAgent.aligned latest); simpl; discriminate.
    + intros Hnil. rewrite Hnil in Hlast. discriminate.
  - split; [intros _|reflexivity]. now apply last_None.
Qed.

Lemma act_before_any_stimulus (gs : list Goal.t)
    (rc : option RoleContext.t) (w : World) :
  exists self,
    TangentAgent.__init__ gs rc w = inr (self, w)
    /\ TangentAgent.act self = "Waiting for stimuli..."%string.
Proof. eexists. rewrite init_eq. split; reflexivity. Qed.

(** X10: right after a [perceive] call [act] speaks of that call only. When
    the interpretation is aligned it has a best goal, and the message names
    that goal and the stimulus; otherwise the message is the holding message
    naming the stimulus. The text "None" is never printed for a goal. *)
Theorem act_reports_latest_stimulus (self : TangentAgent.t) (stim : string)
    (w : World) :
  exists interp self'' w'',
    TangentAgent.perceive self stim w = inr ((interp, self''), w'')
    /\ (TangentAgent.aligned interp = true ->
        exists k, TangentAgent.best_goal interp = Some k
                  /\ TangentAgent.act self''
                     = ("Reinforcing '" +:+ k +:+ "': aligned with '"
                        +:+ stim +:+ "'.")%string)
    /\ (TangentAgent.aligned interp = false ->
        TangentAgent.act self''
        = ("Holding stimulus '" +:+ stim +:+ "'—not yet actionable.")%string).
Proof.
  destruct (perceive_cases self stim w) as (d' & w' & _ & _ & Hcases).
  cbv zeta in Hcases.
  set (bm := TangentAgent.best_match_of _) in Hcases.
  assert (Hsome : Rgtb (snd bm) 0.3 = true -> exists k, fst bm = Some k).
  { intros Hal. apply Rgtb_true in Hal. unfold bm in *.
    destruct (best_match_spec
                (TangentAgent._assess_relevance
                   (TangentAgent.set_goals self d') stim))
      as [[_ Hbm]|(k & v & _ & Hbm & _)]; rewrite Hbm in *; simpl in *.
    - lra.
    - now exists k. }
  assert (Hact : forall self1 interp,
             TangentAgent.act
               (TangentAgent.set_memory self1
                  (TangentAgent.memory self ++ [interp]))
             = if TangentAgent.aligned interp
               then ("Reinforcing '" +:+ TangentAgent.str_of
                                           (TangentAgent.best_goal interp)
                     +:+ "': aligned with '" +:+ TangentAgent.stimulus interp
                     +:+ "'.")%string
               else ("Holding stimulus '" +:+ TangentAgent.stimulus interp
                     +:+ "'—not yet actionable.")%string).
  { intros self1 interp. unfold TangentAgent.act.
    cbn [TangentAgent.memory TangentAgent.set_memory].
    now rewrite last_snoc. }
  destruct Hcases as [[_ Hrun]|(k & g & g' & _ & _ & _ & _ & Hrun)];
    do 3 eexists; (split; [exact Hrun|]); rewrite Hact;
    cbn [TangentAgent.aligned TangentAgent.best_goal TangentAgent.stimulus];
    (split; [intros Hal; destruct (Hsome Hal) as [k0 Hk0]; exists k0;
             split; [exact Hk0|]; rewrite Hal, Hk0; reflexivity
            |intros Hal; rewrite Hal; reflexivity]).
Qed.

(** ** [perceive]: which goal it picks *)

Lemma dict_set_is_Some {V} k (d : dict V) k0 v0 :
  is_Some (dict_get k d) -> is_Some (dict_get k (dict_set k0 v0 d)).
Proof.
  intros H. destruct (String.eqb_spec k k0) as [->|Hne].
  - rewrite dict_get_set_eq. now eexists.
  - now rewrite dict_get_set_ne.
Qed.

Lemma assess_from_keeps_key rc stim values scores k :
  is_Some (dict_get k scores) ->
  is_Some (dict_get k (assess_from rc stim values scores)).
Proof.
  revert scores. induction values as [|g rest IH]; intros scores H;
    [exact H|].
  rewrite assess_from_cons. apply IH.
  destruct (str_in _ _); [now apply dict_set_is_Some|exact H].
Qed.

Lemma assess_from_has_key rc stim values scores g :
  In g values -> matches stim g = true ->
  is_Some (dict_get (Goal.name g) (assess_from rc stim values scores)).
Proof.
  revert scores. induction values as [|g0 rest IH]; intros scores Hin Hm;
    [contradiction|].
  rewrite assess_from_cons. destruct Hin as [->|Hin]; [|now apply IH].
  unfold matches in Hm. rewrite Hm. apply assess_from_keeps_key.
  rewrite dict_get_set_eq. now eexists.
Qed.

Lemma same_identity_matches_iff stim d d' :
  Forall2 same_identity d d' ->
  Forall (fun kg => matches stim (snd kg) = false) d
  <-> Forall (fun kg => matches stim (snd kg) = false) d'.
Proof.
  induction 1 as [|kg kg' d d' Hid Hrest IH]; [tauto|].
  destruct Hid as (_ & Hname & _).
  rewrite !List.Forall_cons_iff, IH. unfold matches. rewrite Hname. tauto.
Qed.

(** X6: on ASCII text, a name is a key of the relevance map exactly when it
    is the name of an owned goal and, lowercased, a contiguous piece of the
    lowercased stimulus. *)
Theorem relevance_key_iff_name_in_stimulus (self : TangentAgent.t)
    (stim k : string) :
  is_ascii stim = true ->
  forallb (fun kg => is_ascii (Goal.name (snd kg))) (TangentAgent.goals self)
  = true ->
  is_Some (dict_get k (TangentAgent._assess_relevance self stim))
  <-> exists g pre post,
        In g (dict_values (TangentAgent.goals self))
        /\ Goal.name g = k
        /\ lower stim = pre +:+ lower k +:+ post.
Proof.
  intros _ _. rewrite assess_eq. split.
  - intros [v Hv]. apply dict_get_In, assess_from_In in Hv
      as [[]|(g & Hg & Hname & Hm & _)].
    unfold matches in Hm. rewrite Hname in Hm.
    apply str_in_substring in Hm as (pre & post & Heq).
    now exists g, pre, post.
  - intros (g & pre & post & Hg & <- & Heq).
    apply assess_from_has_key; [exact Hg|].
    unfold matches. apply str_in_substring. now exists pre, post.
Qed.

Lemma relevance_key_iff_name_in_stimulus_witness :
  let self := TangentAgent.mk
                [("Build"%string,
                  Goal.mk "Build" None None (Some "constructive") 1.2 1.0 0)]
                [] [] (RoleContext.__init__ []) in
  is_Some (dict_get "Build" (TangentAgent._assess_relevance self "Let's BUILD"))
  <-> exists g pre post,
        In g (dict_values (TangentAgent.goals self))
        /\ Goal.name g = "Build"%string
        /\ lower "Let's BUILD" = pre +:+ lower "Build" +:+ post.
Proof.
  intros self.
  apply (relevance_key_iff_name_in_stimulus self "Let's BUILD" "Build");
    reflexivity.
Defined.

(** X11: the interpretation has no best goal exactly when no owned goal's
    name occurs in the stimulus; as soon as one does, the best goal is a key
    of the relevance map, the name of an owned goal that matches. *)
Theorem best_goal_none_iff_no_match (self : TangentAgent.t) (stim : string)
    (w : World) :
  exists interp self'' w'',
    TangentAgent.perceive self stim w = inr ((interp, self''), w'')
    /\ (TangentAgent.best_goal interp = None
        <-> Forall (fun kg => matches stim (snd kg) = false)
                   (TangentAgent.goals self))
    /\ (forall k, TangentAgent.best_goal interp = Some k ->
          exists g, In g (dict_values (TangentAgent.goals self''))
                    /\ Goal.name g = k /\ matches stim g = true).
Proof.
  destruct (perceive_summary self stim w) as (interp0 & self0 & w0 & Hrun0 & _).
  destruct (perceive_cases self stim w) as (d' & w' & _ & Hid & Hcases).
  cbv zeta in Hcases.
  set (m := TangentAgent._assess_relevance (TangentAgent.set_goals self d') stim)
    in *.
  assert (Hinterp : TangentAgent.best_goal interp0
                    = fst (TangentAgent.best_match_of m)).
  { destruct Hcases as [[_ Hrun]|(k & g & g' & _ & _ & _ & _ & Hrun)];
      rewrite Hrun in Hrun0; injection Hrun0 as <- _ _; reflexivity. }
  exists interp0, self0, w0. split; [exact Hrun0|]. rewrite Hinterp.
  split.
  - rewrite (same_identity_matches_iff stim _ _ Hid).
    destruct (best_match_spec m) as [[Hnil Hbm]|(k & v & Hin & Hbm & _)];
      rewrite Hbm; cbn [fst].
    + split; [intros _|reflexivity].
      apply List.Forall_forall. intros [k g] Hkg. cbn [snd].
      destruct (matches stim g) eqn:Hm; [exfalso|reflexivity].
      assert (Hg : In g (dict_values d'))
        by (apply in_map_iff; now exists (k, g)).
      destruct (assess_from_has_key (TangentAgent.role_context self) stim
                  (dict_values d') [] g Hg Hm) as [v Hv].
      unfold m in Hnil. rewrite assess_eq in Hnil.
      cbn [TangentAgent.goals TangentAgent.set_goals
           TangentAgent.role_context] in Hnil.
      rewrite Hnil in Hv. discriminate.
    + split; [discriminate|]. intros Hall. exfalso.
      unfold m in Hin. rewrite assess_eq in Hin.
      apply assess_from_In in Hin as [[]|(g & Hg & _ & Hm & _)].
      cbn [TangentAgent.goals TangentAgent.set_goals] in Hg.
      apply in_map_iff in Hg as ([k0 g0] & Heq & Hin0). cbn in Heq. subst g0.
      rewrite List.Forall_forall in Hall. specialize (Hall _ Hin0).
      cbn in Hall. congruence.
  - intros k Hk.
    destruct (best_match_spec m) as [[_ Hbm]|(k0 & v & Hin & Hbm & _)];
      rewrite Hbm in Hk; [discriminate|]. injection Hk as ->.
    unfold m in Hin. rewrite assess_eq in Hin.
    apply assess_from_In in Hin as [[]|(g & Hg & Hname & Hm & _)].
    cbn [TangentAgent.goals TangentAgent.set_goals] in Hg.
    apply in_map_iff in Hg as ([k0 g0] & Heq & Hin0). cbn in Heq. subst g0.
    assert (Hid2 : Forall2 same_identity d' (TangentAgent.goals self0)).
    { destruct Hcases as [[_ Hrun]|(k1 & g1 & g1' & _ & _ & Hget & Hre & Hrun)];
        rewrite Hrun in Hrun0; injection Hrun0 as _ <- _;
        cbn [TangentAgent.goals TangentAgent.set_memory TangentAgent.set_goals].
      - apply same_identity_refl.
      - rewrite reinforce_eq in Hre. injection Hre as <-.
        apply (same_identity_set d' k1 g1); [exact Hget|now repeat split]. }
    clear - Hid2 Hin0 Hname Hm.
    induction Hid2 as [|x y d1 d2 Hxy _ IH]; [contradiction|].
    destruct Hin0 as [->|Hin0].
    + destruct Hxy as (_ & Hn & _). cbn in Hn.
      exists (snd y). split; [now left|]. split; [congruence|].
      rewrite <- Hm. unfold matches. now rewrite Hn.
    + destruct (IH Hin0) as (g' & Hg' & Hrest). exists g'.
      split; [now right|exact Hrest].
Qed.

(** X12: the threshold is strict and decides the reinforcement. For an agent
    whose dictionary is keyed by the goals' names, a relevance above 0.3
    makes [perceive] reinforce the goal stored under the best match, reading
    the clock once more; a relevance of 0.3 or less (for any agent) gives
    [aligned] false and leaves goals and clock as the decay pass left them. *)
Theorem reinforced_iff_above_threshold (self : TangentAgent.t) (stim : string)
    (w : World) :
  keyed_by_name (TangentAgent.goals self) ->
  exists d' w' interp self'' w'',
    TangentAgent.decay_each (TangentAgent.goals self) w = inr (d', w')
    /\ TangentAgent.perceive self stim w = inr ((interp, self''), w'')
    /\ (TangentAgent.relevance_score interp > 0.3 ->
        TangentAgent.aligned interp = true
        /\ w'' = tick w'
        /\ exists k g g',
             TangentAgent.best_goal interp = Some k
             /\ dict_get k d' = Some g
             /\ Goal.reinforce g Goal.default_boost w' = inr (g', w'')
             /\ TangentAgent.goals self'' = dict_set k g' d')
    /\ (TangentAgent.relevance_score interp <= 0.3 ->
        TangentAgent.aligned interp = false
        /\ w'' = w'
        /\ TangentAgent.goals self'' = d').
Proof.
  intros Hkeyed.
  destruct (perceive_cases self stim w) as (d' & w' & Heach & Hid & Hcases).
  cbv zeta in Hcases.
  assert (Hkeyed' : keyed_by_name d') by (eapply same_identity_keyed; eauto).
  set (self' := TangentAgent.set_goals self d') in *.
  destruct (TangentAgent.best_match_of
              (TangentAgent._assess_relevance self' stim))
    as [bk bv] eqn:Hbm.
  cbn [fst snd] in Hcases.
  exists d', w'.
  destruct Hcases as [[Hcond Hrun]|(k & g & g' & Hk & Hrel & Hget & Hre & Hrun)];
    do 2 eexists; [exists w'|exists (tick w')];
    (split; [exact Heach|]); (split; [exact Hrun|]);
    cbn [TangentAgent.best_goal TangentAgent.relevance_score
         TangentAgent.aligned TangentAgent.goals TangentAgent.set_memory
         TangentAgent.set_goals].
  - split.
    + intros Hgt. exfalso.
      apply andb_false_iff in Hcond as [Hcond|Hcond];
        [apply Rgtb_false in Hcond; lra|].
      destruct bk as [k|].
      * destruct (best_match_owned self' stim k bv Hkeyed' Hbm)
          as ((g & Hg & _) & _).
        cbn [dict_in] in Hcond. apply bool_decide_eq_false in Hcond.
        apply Hcond. exact (In_dict_get _ _ _ Hg).
      * destruct (best_match_spec (TangentAgent._assess_relevance self' stim))
          as [[_ Hnone]|(k & v & _ & Hsome & _)]; rewrite Hbm in *.
        -- injection Hnone as ->. lra.
        -- discriminate.
    + intros Hle. split; [now apply Rgtb_false|]. now split.
  - split.
    + intros _. split; [now apply Rgtb_true|]. split; [reflexivity|].
      exists k, g, g'. repeat split; assumption.
    + intros Hle. lra.
Qed.

Lemma reinforced_iff_above_threshold_witness :
  let self := TangentAgent.mk
                [("eat"%string,
                  Goal.mk "eat" None None (Some "survival") 0.7 0.2 0)]
                [] [] (RoleContext.__init__ []) in
  let stim := "Time to eat"%string in
  let w := mkWorld INR 1 in
  exists d' w' interp self'' w'',
    TangentAgent.decay_each (TangentAgent.goals self) w = inr (d', w')
    /\ TangentAgent.perceive self stim w = inr ((interp, self''), w'')
    /\ (TangentAgent.relevance_score interp > 0.3 ->
        TangentAgent.aligned interp = true
        /\ w'' = tick w'
        /\ exists k g g',
             TangentAgent.best_goal interp = Some k
             /\ dict_get k d' = Some g
             /\ Goal.reinforce g Goal.default_boost w' = inr (g', w'')
             /\ TangentAgent.goals self'' = dict_set k g' d')
    /\ (TangentAgent.relevance_score interp <= 0.3 ->
        TangentAgent.aligned interp = false
        /\ w'' = w'
        /\ TangentAgent.goals self'' = d').
Proof.
  intros self stim w.
  apply (reinforced_iff_above_threshold self stim w).
  repeat constructor.
Defined.

(** X13: for an agent whose dictionary is keyed by name without repeated
    keys, the relevance [perceive] reports is the greatest weighted score
    among the owned goals whose name occurs in the stimulus, taken after the
    decay pass, and it is the weighted score of the goal stored under the
    best match. *)
Theorem relevance_is_greatest_match (self : TangentAgent.t) (stim : string)
    (w : World) :
  wf self ->
  exists d' w' interp self'' w'',
    TangentAgent.decay_each (TangentAgent.goals self) w = inr (d', w')
    /\ TangentAgent.perceive self stim w = inr ((interp, self''), w'')
    /\ (forall k g, dict_get k d' = Some g -> matches stim g = true ->
                    priority self g <= TangentAgent.relevance_score interp)
    /\ (forall k, TangentAgent.best_goal interp = Some k ->
          exists g, dict_get k d' = Some g
                    /\ matches stim g = true
                    /\ TangentAgent.relevance_score interp = priority self g).
Proof.
  intros [Hkeyed Hnd].
  destruct (perceive_cases self stim w) as (d' & w' & Heach & Hid & Hcases).
  cbv zeta in Hcases.
  assert (Hkeyed' : keyed_by_name d') by (eapply same_identity_keyed; eauto).
  assert (Hnd' : NoDup (dict_keys d'))
    by (now rewrite (same_identity_keys _ _ Hid)).
  set (self' := TangentAgent.set_goals self d') in *.
  destruct (TangentAgent.best_match_of
              (TangentAgent._assess_relevance self' stim))
    as [bk bv] eqn:Hbm.
  cbn [fst snd] in Hcases.
  assert (Hmax : forall k g, dict_get k d' = Some g -> matches stim g = true ->
                             priority self g <= bv).
  { intros k g Hget Hm.
    assert (Hentry : dict_get k (TangentAgent._assess_relevance self' stim)
                     = Some (priority self g))
      by (rewrite assess_eq; now apply assess_from_get).
    apply dict_get_In in Hentry.
    destruct (best_match_spec (TangentAgent._assess_relevance self' stim))
      as [[Hnil _]|(k0 & v0 & _ & Hsome & Hall)].
    - rewrite Hnil in Hentry. contradiction.
    - rewrite Hsome in Hbm. injection Hbm as <- <-.
      rewrite List.Forall_forall in Hall. exact (Hall _ Hentry). }
  assert (Hbest : forall k, bk = Some k ->
            exists g, dict_get k d' = Some g /\ matches stim g = true
                      /\ bv = priority self g).
  { intros k ->.
    destruct (best_match_owned self' stim k bv Hkeyed' Hbm)
      as ((g & Hg & Hm & Hv) & _).
    exists g. split; [exact (dict_In_get _ _ _ Hnd' Hg)|]. now split. }
  exists d', w'.
  destruct Hcases as [[_ Hrun]|(k & g & g' & _ & _ & _ & _ & Hrun)];
    do 3 eexists; (split; [exact Heach|]); (split; [exact Hrun|]);
    cbn [TangentAgent.best_goal TangentAgent.relevance_score];
    (split; [exact Hmax|exact Hbest]).
Qed.

Lemma relevance_is_greatest_match_witness :
  let self := TangentAgent.mk
                [("build"%string,
                  Goal.mk "build" None None (Some "constructive") 1.2 1.0 0);
                 ("model"%string,
                  Goal.mk "model" None None (Some "analytical") 1.4 1.0 0)]
                [] [] (RoleContext.__init__ []) in
  let stim := "Build the model"%string in
  let w := mkWorld INR 1 in
  exists d' w' interp self'' w'',
    TangentAgent.decay_each (TangentAgent.goals self) w = inr (d', w')
    /\ TangentAgent.perceive self stim w = inr ((interp, self''), w'')
    /\ (forall k g, dict_get k d' = Some g -> matches stim g = true ->
                    priority self g <= TangentAgent.relevance_score interp)
    /\ (forall k, TangentAgent.best_goal interp = Some k ->
          exists g, dict_get k d' = Some g
                    /\ matches stim g = true
                    /\ TangentAgent.relevance_score interp = priority self g).
Proof.
  intros self stim w.
  apply (relevance_is_greatest_match self stim w).
  split.
  - repeat constructor.
  - repeat (apply NoDup_cons_2;
            [rewrite list_elem_of_In; simpl; intuition discriminate|]).
    apply NoDup_nil_2.
Defined.

(** ** The relevance map and the tie-break *)

Lemma dict_set_absent {V} k (v : V) (d : dict V) :
  dict_get k d = None -> dict_set k v d = d ++ [(k, v)].
Proof.
  induction d as [|[k1 v1] rest IH]; simpl; [reflexivity|].
  destruct (String.eqb_spec k k1); [discriminate|].
  intros H. now rewrite IH.
Qed.

Lemma dict_get_app_absent {V} k (d1 d2 : dict V) :
  dict_get k d1 = None -> dict_get k (d1 ++ d2) = dict_get k d2.
Proof.
  induction d1 as [|[k1 v1] rest IH]; simpl; [reflexivity|].
  destruct (String.eqb_spec k k1); [discriminate|exact IH].
Qed.

Lemma assess_from_entries rc stim (d : dict Goal.t) scores :
  keyed_by_name d -> NoDup (dict_keys d) ->
  (forall k, In k (dict_keys d) -> dict_get k scores = None) ->
  assess_from rc stim (dict_values d) scores
  = scores ++ relevance_entries rc stim d.
Proof.
  revert scores. induction d as [|[k1 g1] rest IH];
    intros scores Hkeyed Hnd Hfresh.
  - unfold relevance_entries. simpl. now rewrite app_nil_r.
  - inversion Hkeyed as [|? ? Hk1 Hkrest]; subst. cbn [fst snd] in Hk1.
    apply NoDup_cons in Hnd as [Hnotin Hnd].
    cbn [dict_values map snd]. change (map snd rest) with (dict_values rest).
    rewrite assess_from_cons. unfold relevance_entries.
    cbn [List.filter snd]. fold (matches stim g1).
    destruct (matches stim g1).
    + rewrite Hk1, dict_set_absent by (apply Hfresh; now left).
      rewrite IH; [|assumption|assumption|].
      * unfold relevance_entries. now rewrite <- app_assoc.
      * intros k Hin. rewrite dict_get_app_absent by (apply Hfresh; now right).
        simpl. destruct (String.eqb_spec k k1) as [->|_]; [|reflexivity].
        exfalso. apply Hnotin. now apply list_elem_of_In.
    + apply IH; [assumption|assumption|].
      intros k Hin. apply Hfresh. now right.
Qed.

(** X14: for a dictionary keyed by name without repeated keys, the relevance
    map lists exactly the goals whose name occurs in the stimulus, in the
    dictionary's order, each with its weighted score under the agent's role
    context; goals that do not match have no entry. *)
Theorem relevance_map_lists_matches_in_order (self : TangentAgent.t)
    (stim : string) :
  wf self ->
  TangentAgent._assess_relevance self stim
  = relevance_entries (TangentAgent.role_context self) stim
                      (TangentAgent.goals self).
Proof.
  intros [Hkeyed Hnd]. rewrite assess_eq.
  now rewrite assess_from_entries.
Qed.

Lemma relevance_map_lists_matches_in_order_witness :
  let self := TangentAgent.mk
                [("build"%string,
                  Goal.mk "build" None None (Some "constructive") 1.2 1.0 0);
                 ("eat"%string,
                  Goal.mk "eat" None None (Some "survival") 0.7 0.2 0);
                 ("model"%string,
                  Goal.mk "model" None None (Some "analytical") 1.4 1.0 0)]
                [] [] (RoleContext.__init__ []) in
  TangentAgent._assess_relevance self "Build the MODEL"
  = relevance_entries (TangentAgent.role_context self) "Build the MODEL"
                      (TangentAgent.goals self).
Proof.
  intros self.
  apply (relevance_map_lists_matches_in_order self "Build the MODEL").
  split.
  - repeat constructor.
  - repeat (apply NoDup_cons_2;
            [rewrite list_elem_of_In; simpl; intuition discriminate|]).
    apply NoDup_nil_2.
Defined.

Section FirstMax.
Context {A : Type} (key : A -> R).

Lemma max_from_stays best l :
  Forall (fun y => key y <= key best) l -> max_from key best l = best.
Proof.
  induction 1 as [|y l Hy _ IH]; [reflexivity|].
  cbn [max_from]. apply Rgtb_false in Hy. now rewrite Hy.
Qed.

Lemma max_from_first best l1 x l2 :
  key best < key x ->
  Forall (fun y => key y < key x) l1 ->
  Forall (fun y => key y <= key x) l2 ->
  max_from key best (l1 ++ x :: l2) = x.
Proof.
  intros Hbest Hl1 Hl2. revert best Hbest.
  induction Hl1 as [|y l1 Hy _ IH]; intros best Hbest; cbn [app max_from].
  - assert (Hgt : Rgtb (key x) (key best) = true) by (apply Rgtb_true; lra).
    rewrite Hgt. now apply max_from_stays.
  - destruct (Rgtb (key y) (key best)); now apply IH.
Qed.

Lemma py_max_first l1 x l2 default :
  Forall (fun y => key y < key x) l1 ->
  Forall (fun y => key y <= key x) l2 ->
  py_max key (l1 ++ x :: l2) default = x.
Proof.
  intros Hl1 Hl2. destruct l1 as [|y l1]; cbn [app py_max].
  - now apply max_from_stays.
  - inversion Hl1; subst. now apply max_from_first.
Qed.
End FirstMax.

Lemma relevance_entries_app rc stim d1 d2 :
  relevance_entries rc stim (d1 ++ d2)
  = relevance_entries rc stim d1 ++ relevance_entries rc stim d2.
Proof. unfold relevance_entries. now rewrite List.filter_app, map_app. Qed.

Lemma relevance_entries_bound rc stim (d : dict Goal.t) (P : R -> Prop) :
  Forall (fun kg => matches stim (snd kg) = true ->
                    P (Goal.weighted_score (snd kg) (Some rc))) d ->
  Forall (fun kv : option string * R => P (snd kv))
         (map (fun kv => (Some (fst kv), snd kv)) (relevance_entries rc stim d)).
Proof.
  induction 1 as [|kg d Hkg _ IH]; [constructor|].
  unfold relevance_entries in *. cbn [List.filter].
  destruct (matches stim (snd kg)); [|exact IH].
  cbn [map]. constructor; [now apply Hkg|exact IH].
Qed.

(** X15: ties are broken by insertion order. For a dictionary keyed by name
    without repeated keys, a matching goal is the best match, with its
    weighted score as relevance, as soon as every matching goal inserted
    before it scores strictly less and every matching goal inserted after it
    scores no more: of several goals sharing the greatest score the earliest
    wins. *)
Theorem earliest_greatest_match_wins (self : TangentAgent.t) (stim : string)
    (before after : dict Goal.t) (k : string) (g : Goal.t) :
  wf self ->
  TangentAgent.goals self = before ++ (k, g) :: after ->
  matches stim g = true ->
  Forall (fun kg => matches stim (snd kg) = true ->
                    priority self (snd kg) < priority self g) before ->
  Forall (fun kg => matches stim (snd kg) = true ->
                    priority self (snd kg) <= priority self g) after ->
  TangentAgent.best_match_of (TangentAgent._assess_relevance self stim)
  = (Some k, priority self g).
Proof.
  intros [Hkeyed Hnd] Hgoals Hm Hbefore Hafter.
  rewrite assess_eq, assess_from_entries by (assumption || reflexivity).
  rewrite app_nil_l, Hgoals.
  rewrite relevance_entries_app.
  replace (relevance_entries (TangentAgent.role_context self) stim
             ((k, g) :: after))
    with ((k, priority self g)
          :: relevance_entries (TangentAgent.role_context self) stim after)
    by (unfold relevance_entries; cbn [List.filter snd]; now rewrite Hm).
  unfold TangentAgent.best_match_of. rewrite map_app. cbn [map fst snd].
  apply (py_max_first (A := option string * R) snd).
  - apply (relevance_entries_bound _ _ _ (fun v => v < priority self g)).
    exact Hbefore.
  - apply (relevance_entries_bound _ _ _ (fun v => v <= priority self g)).
    exact Hafter.
Qed.

Lemma earliest_greatest_match_wins_witness :
  let g1 := Goal.mk "build" None None None 1.0 1.0 0 in
  let g2 := Goal.mk "model" None None None 1.0 1.0 0 in
  let self := TangentAgent.mk [("build"%string, g1); ("model"%string, g2)]
                [] [] (RoleContext.__init__ []) in
  TangentAgent.best_match_of
    (TangentAgent._assess_relevance self "model what you build")
  = (Some "build"%string, priority self g1).
Proof.
  intros g1 g2 self.
  apply (earliest_greatest_match_wins self "model what you build"
           [] [("model"%string, g2)] "build" g1).
  - split.
    + repeat constructor.
    + repeat (apply NoDup_cons_2;
              [rewrite list_elem_of_In; simpl; intuition discriminate|]).
      apply NoDup_nil_2.
  - reflexivity.
  - reflexivity.
  - constructor.
  - constructor; [|constructor]. intros _.
    unfold priority, Goal.weighted_score. simpl. lra.
Defined.

(** ** [prioritized_goals] and construction *)

Section SortedInput.
Context {A : Type} (key : A -> R).

Lemma sort_stable_of_sorted l :
  StronglySorted (ascending key) l -> sort_stable key l = l.
Proof.
  induction 1 as [|x rest Hrest IH Hx]; [reflexivity|].
  cbn [sort_stable]. rewrite IH.
  destruct rest as [|y rest']; [reflexivity|]. cbn [insert_stable].
  inversion Hx as [|? ? Hxy _]; subst. unfold ascending in Hxy.
  destruct (Rlt_dec (key y) (key x)); [lra|reflexivity].
Qed.

Lemma descending_rev l :
  StronglySorted (descending key) l ->
  StronglySorted (ascending key) (rev l).
Proof.
  induction 1 as [|y rest Hrest IH Hy]; simpl; [constructor|].
  apply sorted_snoc; [assumption|].
  apply List.Forall_rev. eapply List.Forall_impl; [|exact Hy].
  unfold ascending, descending. intros z Hz. lra.
Qed.

Lemma sorted_of_descending l :
  StronglySorted (descending key) l -> sorted key l true = l.
Proof.
  intros H. unfold sorted.
  rewrite sort_stable_of_sorted by now apply descending_rev.
  apply rev_involutive.
Qed.
End SortedInput.

(** X16: when the goals already stand in the dictionary in descending order
    of weighted score, [prioritized_goals] returns them in exactly that
    order; in particular a second sort of its own result changes nothing. *)
Theorem prioritized_goals_keeps_sorted_order (self : TangentAgent.t)
    (w : World) :
  StronglySorted (descending (priority self))
                 (dict_values (TangentAgent.goals self)) ->
  TangentAgent.prioritized_goals self w
  = inr ((dict_values (TangentAgent.goals self), self), w).
Proof.
  intros Hsorted. unfold TangentAgent.prioritized_goals.
  change (fun g => Goal.weighted_score g (Some (TangentAgent.role_context self)))
    with (priority self).
  now rewrite sorted_of_descending.
Qed.

Lemma prioritized_goals_keeps_sorted_order_witness :
  let g1 := Goal.mk "model" None None None 1.4 1.0 0 in
  let g2 := Goal.mk "build" None None None 1.2 1.0 0 in
  let self := TangentAgent.mk [("model"%string, g1); ("build"%string, g2)]
                [] [] (RoleContext.__init__ []) in
  TangentAgent.prioritized_goals self (mkWorld INR 0)
  = inr (([g1; g2], self), mkWorld INR 0).
Proof.
  intros g1 g2 self.
  apply (prioritized_goals_keeps_sorted_order self (mkWorld INR 0)).
  repeat constructor.
  unfold descending, priority, Goal.weighted_score. simpl.
  rewrite !skew_for_unset_trait. lra.
Defined.

Lemma goals_by_name_distinct gs acc :
  NoDup (map Goal.name gs) ->
  (forall g, In g gs -> dict_get (Goal.name g) acc = None) ->
  fold_left (fun d g => dict_set (Goal.name g) g d) gs acc
  = acc ++ map (fun g => (Goal.name g, g)) gs.
Proof.
  revert acc. induction gs as [|g rest IH]; intros acc Hnd Hfresh.
  - simpl. now rewrite app_nil_r.
  - cbn [map] in Hnd. apply NoDup_cons in Hnd as [Hnotin Hnd].
    cbn [fold_left map]. rewrite dict_set_absent by (apply Hfresh; now left).
    rewrite IH; [now rewrite <- app_assoc|assumption|].
    intros g0 Hg0. rewrite dict_get_app_absent by (apply Hfresh; now right).
    simpl. destruct (String.eqb_spec (Goal.name g0) (Goal.name g)) as [Heq|_];
      [|reflexivity].
    exfalso. apply Hnotin, list_elem_of_In. rewrite <- Heq.
    now apply in_map.
Qed.

(** X17: constructed from goals of pairwise distinct names, the agent owns
    every one of them, each under its own name, in the order they were given;
    its dictionary is keyed by name without repeated keys. *)
Theorem construction_keeps_distinct_goals (gs : list Goal.t)
    (rc : option RoleContext.t) (w : World) :
  NoDup (map Goal.name gs) ->
  exists self,
    TangentAgent.__init__ gs rc w = inr (self, w)
    /\ TangentAgent.goals self = map (fun g => (Goal.name g, g)) gs
    /\ dict_values (TangentAgent.goals self) = gs
    /\ wf self.
Proof.
  intros Hnd. destruct (init_wf gs rc w) as (self & Hinit & Hwf).
  exists self. split; [exact Hinit|].
  rewrite init_eq in Hinit. injection Hinit as <-.
  cbn [TangentAgent.goals] in *.
  assert (Hgoals : TangentAgent.goals_by_name gs
                   = map (fun g => (Goal.name g, g)) gs).
  { unfold TangentAgent.goals_by_name.
    now rewrite goals_by_name_distinct. }
  split; [exact Hgoals|]. split; [|exact Hwf].
  rewrite Hgoals. unfold dict_values. rewrite map_map. cbn [snd].
  apply map_id.
Qed.

Lemma construction_keeps_distinct_goals_witness :
  let g1 := Goal.mk "build" None None (Some "constructive") 1.2 1.0 0 in
  let g2 := Goal.mk "eat" None None (Some "survival") 0.7 0.2 0 in
  exists self,
    TangentAgent.__init__ [g1; g2] None (mkWorld INR 0)
      = inr (self, mkWorld INR 0)
    /\ TangentAgent.goals self = [("build"%string, g1); ("eat"%string, g2)]
    /\ dict_values (TangentAgent.goals self) = [g1; g2]
    /\ wf self.
Proof.
  intros g1 g2.
  apply (construction_keeps_distinct_goals [g1; g2] None (mkWorld INR 0)).
  repeat (apply NoDup_cons_2;
          [rewrite list_elem_of_In; simpl; intuition discriminate|]).
  apply NoDup_nil_2.
Defined.

(** ** Runs of [perceive] and the decay pass *)

(** X18: on a clock that does not run backwards, with no goal stamped
    ahead of it, a run of [perceive] calls returns normally; the history
    afterwards is the earlier history followed by one interpretation per
    stimulus, in the order of the stimuli, the goal dictionary has the keys
    it had, in the same order, and no goal is stamped ahead of the clock, so
    the run can go on. *)
Theorem perceive_run_records_every_stimulus (stimuli : list string)
    (self : TangentAgent.t) (w : World) :
  forward_clock w ->
  stamps_not_ahead (TangentAgent.goals self) w ->
  exists interps self' w',
    perceive_each self stimuli w = inr ((interps, self'), w')
    /\ map TangentAgent.stimulus interps = stimuli
    /\ TangentAgent.memory self' = TangentAgent.memory self ++ interps
    /\ dict_keys (TangentAgent.goals self')
       = dict_keys (TangentAgent.goals self)
    /\ readings w' = readings w
    /\ stamps_not_ahead (TangentAgent.goals self') w'.
Proof.
  revert self w. induction stimuli as [|s rest IH]; intros self w Hfw Hst.
  - exists [], self, w. split; [reflexivity|]. split; [reflexivity|].
    split; [now rewrite app_nil_r|]. now repeat split.
  - destruct (perceive_summary self s w)
      as (interp & self1 & w1 & Hrun & Hstim & Hmem & _ & _ & Hr & _ & Hkeys & _).
    pose proof (perceive_stamps _ _ _ _ _ _ Hfw Hrun) as Hst1.
    pose proof (forward_clock_readings w w1 Hr Hfw) as Hfw1.
    destruct (IH self1 w1 Hfw1 Hst1)
      as (interps & self' & w' & Hrest & Hstims & Hmem' & Hkeys' & Hr' & Hst').
    exists (interp :: interps), self', w'.
    split; [|split; [|split; [|split; [|split]]]].
    + cbn [perceive_each]. rewrite (bind_inr _ _ _ _ _ Hrun). cbn [snd fst].
      now rewrite (bind_inr _ _ _ _ _ Hrest).
    + cbn [map]. now rewrite Hstim, Hstims.
    + rewrite Hmem', Hmem, <- app_assoc. reflexivity.
    + now rewrite Hkeys'.
    + now rewrite Hr'.
    + exact Hst'.
Qed.

Lemma perceive_run_records_every_stimulus_witness :
  let self := TangentAgent.mk
                [("build"%string,
                  Goal.mk "build" None None (Some "constructive") 1.2 1.0 0);
                 ("eat"%string,
                  Goal.mk "eat" None None (Some "survival") 0.7 0.2 0)]
                [] [] (RoleContext.__init__ []) in
  let stimuli := ["Let's build something"; "We should go outside."]%string in
  let w := mkWorld INR 1 in
  exists interps self' w',
    perceive_each self stimuli w = inr ((interps, self'), w')
    /\ map TangentAgent.stimulus interps = stimuli
    /\ TangentAgent.memory self' = TangentAgent.memory self ++ interps
    /\ dict_keys (TangentAgent.goals self')
       = dict_keys (TangentAgent.goals self)
    /\ readings w' = readings w
    /\ stamps_not_ahead (TangentAgent.goals self') w'.
Proof.
  intros self stimuli w.
  apply (perceive_run_records_every_stimulus stimuli self w).
  - intros m n Hmn. simpl. now apply le_INR.
  - repeat (apply List.Forall_cons; [unfold now; simpl; lra|]).
    apply List.Forall_nil.
Defined.

(** X19: when no score is negative and the clock never shows an instant
    earlier than a goal's last update, the decay pass returns normally,
    raises no score and leaves none negative; it reads the clock twice per
    goal and touches nothing but the goals. *)
Theorem decay_pass_never_raises_scores (self : TangentAgent.t) (w : World) :
  Forall (fun kg => 0 <= Goal.score (snd kg)
                    /\ forall n, Goal.last_updated (snd kg) <= readings w n)
         (TangentAgent.goals self) ->
  exists d',
    TangentAgent._decay_goals self w
    = inr (TangentAgent.set_goals self d',
           mkWorld (readings w)
                   (ticks w + 2 * length (TangentAgent.goals self)))
    /\ Forall2 (fun kg kg' => fst kg' = fst kg
                              /\ 0 <= Goal.score (snd kg')
                                   <= Goal.score (snd kg))
               (TangentAgent.goals self) d'.
Proof.
  intros Hall.
  destruct (decay_goals_spec self w) as (d' & w' & Hrun & Heach & _).
  exists d'. rewrite Hrun, (decay_each_ticks _ _ _ _ Heach).
  split; [reflexivity|]. clear Hrun.
  revert w d' w' Heach Hall.
  induction (TangentAgent.goals self) as [|[k g] rest IH];
    intros w d' w' Heach Hall.
  - injection Heach as <- _. constructor.
  - inversion Hall as [|? ? [Hscore Hclock] Hrest]; subst. cbn [snd] in *.
    cbn [TangentAgent.decay_each] in Heach.
    rewrite (bind_inr _ _ _ _ _ (decay_eq g Goal.default_rate w)) in Heach.
    destruct (decay_each_spec rest (tick (tick w))) as (r' & w1 & Hr & _).
    rewrite (bind_inr _ _ _ _ _ Hr) in Heach. injection Heach as <- _.
    constructor; [|exact (IH _ _ _ Hr Hrest)].
    cbn [fst snd Goal.score]. split; [reflexivity|].
    apply decay_score_bounds;
      [unfold Goal.default_rate; lra|apply Hclock|exact Hscore].
Qed.

Lemma decay_pass_never_raises_scores_witness :
  let self := TangentAgent.mk
                [("build"%string,
                  Goal.mk "build" None None (Some "constructive") 1.2 1.0 0);
                 ("eat"%string,
                  Goal.mk "eat" None None (Some "survival") 0.7 0.2 0)]
                [] [] (RoleContext.__init__ []) in
  let w := mkWorld INR 1 in
  exists d',
    TangentAgent._decay_goals self w
    = inr (TangentAgent.set_goals self d',
           mkWorld (readings w)
                   (ticks w + 2 * length (TangentAgent.goals self)))
    /\ Forall2 (fun kg kg' => fst kg' = fst kg
                              /\ 0 <= Goal.score (snd kg')
                                   <= Goal.score (snd kg))
               (TangentAgent.goals self) d'.
Proof.
  intros self w.
  apply (decay_pass_never_raises_scores self w).
  repeat (apply List.Forall_cons;
          [split; [simpl; lra|intros n; simpl; apply pos_INR]|]).
  apply List.Forall_nil.
Defined.

Lemma perceive_each_wf (stimuli : list string) (self : TangentAgent.t)
    (w : World) :
  wf self ->
  exists interps self' w',
    perceive_each self stimuli w = inr ((interps, self'), w')
    /\ wf self'
    /\ dict_keys (TangentAgent.goals self')
       = dict_keys (TangentAgent.goals self).
Proof.
  revert self w. induction stimuli as [|s rest IH]; intros self w Hwf.
  - exists [], self, w. split; [reflexivity|]. split; [exact Hwf|reflexivity].
  - destruct (perceive_preserves_wf self s w Hwf)
      as (interp & self1 & w1 & Hrun & Hwf1 & Hkeys1).
    destruct (IH self1 w1 Hwf1) as (interps & self' & w' & Hrest & Hwf' & Hkeys').
    exists (interp :: interps), self', w'. split; [|split].
    + cbn [perceive_each]. rewrite (bind_inr _ _ _ _ _ Hrun). cbn [snd fst].
      now rewrite (bind_inr _ _ _ _ _ Hrest).
    + exact Hwf'.
    + now rewrite Hkeys'.
Qed.

(** X20: every agent reached from the constructor by [perceive] calls keeps
    its goal dictionary keyed by the goals' names, with no key twice and with
    the keys construction gave it: the key under which [perceive] looks a
    goal up is always the name of the goal it finds. *)
Theorem constructed_agents_stay_keyed_by_name (gs : list Goal.t)
    (rc : option RoleContext.t) (stimuli : list string) (w : World) :
  exists self0 interps self' w',
    TangentAgent.__init__ gs rc w = inr (self0, w)
    /\ perceive_each self0 stimuli w = inr ((interps, self'), w')
    /\ keyed_by_name (TangentAgent.goals self')
    /\ NoDup (dict_keys (TangentAgent.goals self'))
    /\ dict_keys (TangentAgent.goals self')
       = dict_keys (TangentAgent.goals self0).
Proof.
  destruct (init_wf gs rc w) as (self0 & Hinit & Hwf0).
  destruct (perceive_each_wf stimuli self0 w Hwf0)
    as (interps & self' & w' & Hrun & [Hkeyed Hnd] & Hkeys).
  exists self0, interps, self', w'. repeat split; assumption.
Qed.

Lemma assess_lower self stim :
  TangentAgent._assess_relevance self (lower stim)
  = TangentAgent._assess_relevance self stim.
Proof.
  unfold TangentAgent._assess_relevance. now rewrite lower_idem.
Qed.

(** X21: [perceive] is blind to the case of the stimulus. Given the stimulus
    or its lowercased form, from the same agent and clock, it picks the same
    best goal with the same relevance and alignment, leaves the same goals
    and the same clock; the two results differ only in the stimulus text they
    record. *)
Theorem perceive_ignores_stimulus_case (self : TangentAgent.t) (stim : string)
    (w : World) :
  exists interp1 interp2 self1 self2 w',
    TangentAgent.perceive self stim w = inr ((interp1, self1), w')
    /\ TangentAgent.perceive self (lower stim) w = inr ((interp2, self2), w')
    /\ TangentAgent.best_goal interp1 = TangentAgent.best_goal interp2
    /\ TangentAgent.relevance_score interp1
       = TangentAgent.relevance_score interp2
    /\ TangentAgent.aligned interp1 = TangentAgent.aligned interp2
    /\ TangentAgent.goals self1 = TangentAgent.goals self2.
Proof.
  destruct (perceive_cases self stim w) as (d' & w' & Heach & _ & Hc1).
  destruct (perceive_cases self (lower stim) w) as (d2 & w2 & Heach2 & _ & Hc2).
  rewrite Heach in Heach2. injection Heach2 as <- <-.
  cbv zeta in Hc1, Hc2. rewrite assess_lower in Hc2.
  set (bm := TangentAgent.best_match_of _) in *.
  destruct Hc1 as [[Hcond1 Hrun1]|(k1 & g1 & g1' & Hk1 & Hrel1 & Hget1 & Hre1 & Hrun1)];
    destruct Hc2 as [[Hcond2 Hrun2]|(k2 & g2 & g2' & Hk2 & Hrel2 & Hget2 & Hre2 & Hrun2)].
  - do 4 eexists. exists w'. split; [exact Hrun1|]. split; [exact Hrun2|].
    now repeat split.
  - exfalso. rewrite Hk2 in Hcond1. cbn [dict_in] in Hcond1.
    apply andb_false_iff in Hcond1 as [H|H].
    + apply Rgtb_false in H. lra.
    + apply bool_decide_eq_false in H. apply H. now exists g2.
  - exfalso. rewrite Hk1 in Hcond2. cbn [dict_in] in Hcond2.
    apply andb_false_iff in Hcond2 as [H|H].
    + apply Rgtb_false in H. lra.
    + apply bool_decide_eq_false in H. apply H. now exists g1.
  - rewrite Hk1 in Hk2. injection Hk2 as <-.
    rewrite Hget1 in Hget2. injection Hget2 as <-.
    rewrite Hre1 in Hre2. injection Hre2 as <-.
    do 4 eexists. exists (tick w'). split; [exact Hrun1|].
    split; [exact Hrun2|]. now repeat split.
Qed.
